(** * Preparation of gene-expression and clinical tables

    A shallow embedding of [code_from_cluster_assignment.py]: the loaders of
    the gene-expression matrix and of the clinical estrogen-receptor (ER)
    records, the one-hot encoder of the ER status, the sample matcher and the
    per-gene standard deviation.

    The program is written against pandas.  A table ([DataFrame]) is modelled
    row-major, with its column labels and, for every row, the index label and
    the cells of that row.  Each pandas call of the source becomes a function
    of the same name on that model; calls that can raise return a [result].
    The two readers ([read_csv], [read_excel]) are outside the model: a loader
    takes the table the reader parsed. *)

From Stdlib Require Import String Ascii List ZArith Bool Lia Floats.
From stdpp Require Import base list.
Import ListNotations.

Open Scope string_scope.
Open Scope list_scope.

(** ** Cells and labels *)

(** A cell holds a Python string, an integer (booleans count as 0 and 1, as
    Python compares them), a float64, or is missing (NaN or None). *)
Inductive cell : Type :=
| CStr (s : string)
| CInt (z : Z)
| CFloat (x : float)
| CNaN.

(** Row and column labels are cells as well: transposition and
    [reset_index]/[set_index] move values between the two. *)
Abbreviation label := cell.

(** [pandas.isna] on one cell. *)
Definition is_missing (c : cell) : bool :=
  match c with
  | CNaN => true
  | CFloat x => PrimFloat.is_nan x
  | _ => false
  end.

(** Exact comparison of a float64 with an integer, through the float's
    sign, mantissa and exponent. *)
Definition float_compare_Z (x : float) (z : Z) : option comparison :=
  match Prim2SF x with
  | S754_zero _ => Some (0 ?= z)%Z
  | S754_finite s m e =>
      let v := if s then Z.neg m else Z.pos m in
      Some (if (0 <=? e)%Z then (v * 2 ^ e ?= z)%Z else (v ?= z * 2 ^ (- e))%Z)
  | S754_infinity s => Some (if s then Lt else Gt)
  | S754_nan => None
  end.

(** Python's [==] on cells, with missing labels equal to each other as in a
    pandas index. *)
Definition cell_eqb (a b : cell) : bool :=
  match a, b with
  | CStr s, CStr t => String.eqb s t
  | CInt m, CInt n => Z.eqb m n
  | CFloat x, CFloat y => PrimFloat.eqb x y || (PrimFloat.is_nan x && PrimFloat.is_nan y)
  | CFloat x, CInt n | CInt n, CFloat x =>
      match float_compare_Z x n with Some Eq => true | _ => false end
  | CNaN, CNaN => true
  | CNaN, CFloat x | CFloat x, CNaN => PrimFloat.is_nan x
  | _, _ => false
  end.

Fixpoint list_eqb {A} (eqb : A -> A -> bool) (l1 l2 : list A) : bool :=
  match l1, l2 with
  | [], [] => true
  | a :: l1', b :: l2' => eqb a b && list_eqb eqb l1' l2'
  | _, _ => false
  end.

(** ** Exceptions *)

(** The Python exceptions the program can raise.  [Unsupported] marks an
    input outside the modelled fragment of a library (see [re_parse]). *)
Inductive exn : Type :=
| KeyError
| ValueError
| TypeError
| AttributeError
| ReError
| Unsupported.

Inductive result (A : Type) : Type :=
| Ok (a : A)
| Raise (e : exn).
Arguments Ok {A} a.
Arguments Raise {A} e.

Definition bind {A B} (r : result A) (k : A -> result B) : result B :=
  match r with
  | Ok a => k a
  | Raise e => Raise e
  end.

Declare Scope result_scope.
Delimit Scope result_scope with result.
Notation "'let*' x ':=' r 'in' k" := (bind r (fun x => k))
  (at level 10, x pattern, r at level 100, k at level 200) : result_scope.
Open Scope result_scope.

(** ** Tables *)

Record DataFrame : Type := mkDataFrame {
  columns : list label;
  rows : list (label * list cell)
}.

(** A pandas Series: index label and value per entry. *)
Definition Series := list (label * cell).

Definition index (df : DataFrame) : list label := map fst (rows df).

(** Every row has one cell per column. *)
Definition rectangular (df : DataFrame) : Prop :=
  Forall (fun r => length (snd r) = length (columns df)) (rows df).

Definition has_label (l : label) (ls : list label) : bool :=
  existsb (cell_eqb l) ls.

(** Positions of the columns carrying label [l]. *)
Fixpoint positions_from (n : nat) (l : label) (ls : list label) : list nat :=
  match ls with
  | [] => []
  | c :: ls' =>
      if cell_eqb c l then n :: positions_from (S n) l ls'
      else positions_from (S n) l ls'
  end.

Definition positions (l : label) (ls : list label) : list nat :=
  positions_from 0 l ls.

Definition cell_at (j : nat) (r : list cell) : cell := nth j r CNaN.

Definition column_at (j : nat) (df : DataFrame) : list cell :=
  map (fun r => cell_at j (snd r)) (rows df).

(** [df[l]]: the column as a Series.  A missing label raises KeyError.  With
    a duplicated label pandas returns a sub-frame instead of a Series, on
    which the Series methods the program calls next ([.str], [.to_list]) do
    not exist. *)
Definition getitem (l : label) (df : DataFrame) : result Series :=
  match positions l (columns df) with
  | [] => Raise KeyError
  | [j] => Ok (map (fun r => (fst r, cell_at j (snd r))) (rows df))
  | _ => Raise AttributeError
  end.

Definition to_list (s : Series) : list cell := map snd s.

(** [df[[l1; ...; ln]]]: selection of columns by a list of labels. *)
Fixpoint select_positions (ls : list label) (cols : list label) : result (list nat) :=
  match ls with
  | [] => Ok []
  | l :: ls' =>
      match positions l cols with
      | [] => Raise KeyError
      | js => let* rest := select_positions ls' cols in Ok (js ++ rest)
      end
  end.

Definition getitems (ls : list label) (df : DataFrame) : result DataFrame :=
  let* js := select_positions ls (columns df) in
  Ok {| columns := map (fun j => cell_at j (columns df)) js;
        rows := map (fun r => (fst r, map (fun j => cell_at j (snd r)) js)) (rows df) |}.

(** [df.dropna()]: the rows without a missing cell. *)
Definition complete_row (r : label * list cell) : bool :=
  forallb (fun c => negb (is_missing c)) (snd r).

Definition dropna (df : DataFrame) : DataFrame :=
  {| columns := columns df; rows := List.filter complete_row (rows df) |}.

(** The float64 nearest to an integer (ties to even), as the conversion of
    an int64 to float64. *)
Definition float_of_Z (z : Z) : float :=
  SF2Prim (binary_normalize prec emax z 0 false).

(** A column of a pandas table has one dtype, and its cells are of the kind
    that dtype holds: integers for int64, floats and missing values for
    float64, strings and missing values for the object columns that a parser
    produces.  A table is read with this convention: in a column that also
    holds a float or a missing value, the number 4 is the cell [CFloat 4]. *)
Inductive dtype : Type :=
| Int64
| Float64
| Object.

Definition is_str (c : cell) : bool :=
  match c with CStr _ => true | _ => false end.

Definition is_int (c : cell) : bool :=
  match c with CInt _ => true | _ => false end.

Definition is_float (c : cell) : bool :=
  match c with CFloat _ | CNaN => true | _ => false end.

Definition column_typed (cs : list cell) : bool :=
  forallb is_int cs
  || forallb is_float cs
  || forallb (fun c => is_str c || is_missing c) cs.

Definition well_typed (df : DataFrame) : bool :=
  forallb (fun j => column_typed (column_at j df)) (seq 0 (length (columns df))).

(** The dtype that holds all the cells of a table at once ([df.values]):
    object when a cell is a string, int64 when every cell is an integer,
    float64 otherwise. *)

Definition common_dtype (df : DataFrame) : dtype :=
  if existsb (fun r => existsb is_str (snd r)) (rows df) then Object
  else if forallb (fun r => forallb is_int (snd r)) (rows df) then Int64
  else Float64.

(** A cell stored under a dtype: under float64 an integer becomes the
    nearest float. *)
Definition astype (d : dtype) (c : cell) : cell :=
  match d, c with
  | Float64, CInt z => CFloat (float_of_Z z)
  | _, _ => c
  end.

(** [df.T]: the table is transposed through one array of the common dtype, so
    integer cells beside float cells come out as floats. *)
Definition transpose (df : DataFrame) : DataFrame :=
  {| columns := index df;
     rows := map (fun j => (cell_at j (columns df),
                            map (astype (common_dtype df)) (column_at j df)))
                 (seq 0 (length (columns df))) |}.

(** [df.reset_index()] on a table whose index has no name: the index becomes
    the first column, called "index", or "level_0" when a column "index"
    exists already; inserting a label that exists raises ValueError.  The new
    index is 0, 1, ... *)
Fixpoint number_from (n : nat) (rs : list (label * list cell)) : list (label * list cell) :=
  match rs with
  | [] => []
  | r :: rs' => (CInt (Z.of_nat n), fst r :: snd r) :: number_from (S n) rs'
  end.

Definition reset_index (df : DataFrame) : result DataFrame :=
  let name := if has_label (CStr "index") (columns df)
              then CStr "level_0" else CStr "index" in
  if has_label name (columns df) then Raise ValueError
  else Ok {| columns := name :: columns df; rows := number_from 0 (rows df) |}.

(** [df.rename(columns={old: new})]. *)
Definition rename (old new : label) (df : DataFrame) : DataFrame :=
  {| columns := map (fun c => if cell_eqb c old then new else c) (columns df);
     rows := rows df |}.

(** ** Expression loader *)

(** [load_gene_expression_data], from the gene-by-sample table that
    [read_csv(filepath, sep="\t", index_col=0)] parsed.  [rename_axis] only
    clears the name of the column axis, which the model does not carry. *)
Definition load_gene_expression_data (parsed : DataFrame) : result DataFrame :=
  let genes_expression := transpose (dropna parsed) in
  let* genes_expression := reset_index genes_expression in
  Ok (rename (CStr "index") (CStr "NAME") genes_expression).

(** ** Clinical loader *)

Definition ID_COLUMN : label := CStr "Complete TCGA ID".
Definition ER_COLUMN : label := CStr "ER Status".
Definition STAGE_COLUMN : label := CStr "AJCC Stage".
Definition NEGATIVE : cell := CStr "Negative".
Definition POSITIVE : cell := CStr "Positive".

(** [s.isin(values)], as the list of booleans in row order. *)
Definition isin (values : list cell) (s : Series) : list bool :=
  map (fun e => existsb (cell_eqb (snd e)) values) s.

(** Selection of the entries of [xs] whose mask bit is set. *)
Fixpoint mask_select {A} (mask : list bool) (xs : list A) : list A :=
  match mask, xs with
  | b :: mask', x :: xs' =>
      if b then x :: mask_select mask' xs' else mask_select mask' xs'
  | _, _ => []
  end.

(** [df[mask]] for a boolean Series computed from [df] itself (same index). *)
Definition boolean_mask (mask : list bool) (df : DataFrame) : DataFrame :=
  {| columns := columns df; rows := mask_select mask (rows df) |}.

(** The category filter of the clinical loader: drop the rows with a missing
    value, then keep the rows whose ER status is "Negative" or "Positive". *)
Definition category_filter (df : DataFrame) : result DataFrame :=
  let estrogen_receptor := dropna df in
  let* status := getitem ER_COLUMN estrogen_receptor in
  Ok (boolean_mask (isin [NEGATIVE; POSITIVE] status) estrogen_receptor).

(** [load_clinical_data], from the table that [read_excel(filepath, header=1)]
    parsed. *)
Definition load_clinical_data (parsed : DataFrame) : result DataFrame :=
  let* selected := getitems [ID_COLUMN; ER_COLUMN; STAGE_COLUMN] parsed in
  category_filter selected.

(** ** Category encoder *)

(** Order of the categories of [get_dummies]: numbers before strings, numbers
    by value, strings by code points. *)
Definition cell_ltb (a b : cell) : bool :=
  match a, b with
  | CStr s, CStr t => String.ltb s t
  | CInt m, CInt n => Z.ltb m n
  | CFloat x, CFloat y => PrimFloat.ltb x y
  | CFloat x, CInt n => match float_compare_Z x n with Some Lt => true | _ => false end
  | CInt n, CFloat x => match float_compare_Z x n with Some Gt => true | _ => false end
  | (CInt _ | CFloat _), CStr _ => true
  | _, _ => false
  end.

Fixpoint insert_level (c : cell) (ls : list cell) : list cell :=
  match ls with
  | [] => [c]
  | l :: ls' =>
      if cell_eqb c l then ls
      else if cell_ltb c l then c :: ls
      else l :: insert_level c ls'
  end.

(** The sorted distinct non-missing values of a column. *)
Definition levels (vs : list cell) : list cell :=
  fold_right insert_level [] (List.filter (fun c => negb (is_missing c)) vs).

(** [pd.get_dummies(s)]: one indicator column per category that occurs in
    [s].  The indicators are uint8 (pandas 1) or bool (pandas 2); both
    compare as the integers 0 and 1. *)
Definition get_dummies (s : Series) : DataFrame :=
  let cats := levels (to_list s) in
  {| columns := cats;
     rows := map (fun e => (fst e, map (fun l => CInt (if cell_eqb (snd e) l then 1 else 0)) cats)) s |}.

(** [pd.concat((a, b), axis=1)] for two tables over the same index, which is
    the only use in the program: the rows are pasted side by side. *)
Fixpoint paste_rows (ra rb : list (label * list cell)) : list (label * list cell) :=
  match ra, rb with
  | a :: ra', b :: rb' => (fst a, snd a ++ snd b) :: paste_rows ra' rb'
  | _, _ => []
  end.

Definition concat_axis1 (a b : DataFrame) : DataFrame :=
  {| columns := columns a ++ columns b; rows := paste_rows (rows a) (rows b) |}.

(** [df.drop([l], axis=1)]: KeyError when no column carries the label. *)
Fixpoint drop_cells (l : label) (cols : list label) (cs : list cell) : list cell :=
  match cols, cs with
  | k :: cols', c :: cs' =>
      if cell_eqb k l then drop_cells l cols' cs' else c :: drop_cells l cols' cs'
  | _, _ => []
  end.

Definition drop (l : label) (df : DataFrame) : result DataFrame :=
  if has_label l (columns df)
  then Ok {| columns := List.filter (fun k => negb (cell_eqb k l)) (columns df);
             rows := map (fun r => (fst r, drop_cells l (columns df) (snd r))) (rows df) |}
  else Raise KeyError.

(** [encode_estrogen_receptor].  When the label "ER Status" is duplicated,
    [get_dummies] receives a sub-frame and prefixes the indicator labels, so
    that dropping "Positive" raises KeyError. *)
Definition encode_estrogen_receptor (clinical_data : DataFrame) : result DataFrame :=
  let* status := match getitem ER_COLUMN clinical_data with
                 | Raise AttributeError => Raise KeyError
                 | r => r
                 end in
  let dummy_data := get_dummies status in
  let estrogen_receptor := concat_axis1 dummy_data clinical_data in
  let* estrogen_receptor := drop ER_COLUMN estrogen_receptor in
  let* estrogen_receptor := drop POSITIVE estrogen_receptor in
  let estrogen_receptor := rename NEGATIVE ER_COLUMN estrogen_receptor in
  getitems [ID_COLUMN; ER_COLUMN; STAGE_COLUMN] estrogen_receptor.

(** ** Regular expressions of [Series.str.contains]

    [str.contains(pat)] searches with [pat] as a regular expression
    ([regex=True] is the default).  The model covers the patterns made of
    literal characters, [.] and the postfix operators [*], [+] and [?]; any
    other special character is reported as [Unsupported].  Strings are taken
    as sequences of one-byte characters. *)

Inductive atom : Type :=
| Lit (c : ascii)
| AnyChar.

Inductive quant : Type :=
| Once
| Star
| Plus
| Opt.

Definition item : Type := atom * quant.

(** The special characters outside the fragment: backslash, anchors,
    alternation, groups, classes and counted repetition. *)
Definition re_special (c : ascii) : bool :=
  existsb (Ascii.eqb c) (list_ascii_of_string "\^$|()[]{}").

Definition re_quant (c : ascii) : option quant :=
  if Ascii.eqb c "*" then Some Star
  else if Ascii.eqb c "+" then Some Plus
  else if Ascii.eqb c "?" then Some Opt
  else None.

(** A character that stands for itself in a pattern. *)
Definition re_plain_char (c : ascii) : bool :=
  negb (re_special c) && negb (Ascii.eqb c ".")
  && match re_quant c with None => true | Some _ => false end.

Definition re_plain (s : string) : bool :=
  forallb re_plain_char (list_ascii_of_string s).

Definition re_atom (c : ascii) : atom :=
  if Ascii.eqb c "." then AnyChar else Lit c.

(** A repetition operator with nothing to repeat is an error of [re.compile];
    an operator that follows an operator (lazy or possessive repetition) is
    outside the fragment. *)
Fixpoint re_items (after_quant : bool) (cs : list ascii) : result (list item) :=
  match cs with
  | [] => Ok []
  | c :: cs' =>
      if re_special c then Raise Unsupported
      else match re_quant c with
           | Some _ => Raise (if after_quant then Unsupported else ReError)
           | None =>
               match cs' with
               | q :: cs'' =>
                   match re_quant q with
                   | Some k => let* rest := re_items true cs'' in Ok ((re_atom c, k) :: rest)
                   | None => let* rest := re_items false cs' in Ok ((re_atom c, Once) :: rest)
                   end
               | [] => Ok [(re_atom c, Once)]
               end
           end
  end.

Definition re_parse (pat : string) : result (list item) :=
  re_items false (list_ascii_of_string pat).

Definition atom_matches (a : atom) (c : ascii) : bool :=
  match a with
  | Lit d => Ascii.eqb d c
  | AnyChar => negb (Ascii.eqb c "010")
  end.

(** [match_star a k s]: some number of characters matching [a], then [k]. *)
Fixpoint match_star (a : atom) (k : list ascii -> bool) (s : list ascii) : bool :=
  k s || match s with
         | c :: s' => atom_matches a c && match_star a k s'
         | [] => false
         end.

(** [match_items p s]: the pattern matches a prefix of [s]. *)
Fixpoint match_items (p : list item) : list ascii -> bool :=
  match p with
  | [] => fun _ => true
  | (a, q) :: p' =>
      let k := match_items p' in
      let one := fun (k' : list ascii -> bool) s =>
                   match s with
                   | c :: s' => atom_matches a c && k' s'
                   | [] => false
                   end in
      match q with
      | Once => one k
      | Opt => fun s => one k s || k s
      | Star => match_star a k
      | Plus => one (match_star a k)
      end
  end.

(** [re.search]: the pattern matches at some position of [s]. *)
Fixpoint search_items (p : list item) (s : list ascii) : bool :=
  match_items p s || match s with
                     | _ :: s' => search_items p s'
                     | [] => false
                     end.

(** Python's [sub in s] on strings. *)
Fixpoint is_prefix (p s : list ascii) : bool :=
  match p, s with
  | [], _ => true
  | c :: p', d :: s' => Ascii.eqb c d && is_prefix p' s'
  | _ :: _, [] => false
  end.

Fixpoint is_infix (p s : list ascii) : bool :=
  is_prefix p s || match s with
                   | _ :: s' => is_infix p s'
                   | [] => false
                   end.

Definition substring_of (sub s : string) : bool :=
  is_infix (list_ascii_of_string sub) (list_ascii_of_string s).

(** [s.str]: the accessor exists for a column with a string in it, or with
    nothing but missing values. *)
Definition str_accessor (s : Series) : result Series :=
  if existsb is_str (to_list s) || forallb is_missing (to_list s)
  then Ok s else Raise AttributeError.

(** [s.str.contains(pat)]: per entry, whether the pattern is found; a cell
    that is not a string gives a missing value ([None] here). *)
Definition str_contains (pat : cell) (s : Series) : result (list (option bool)) :=
  let* s := str_accessor s in
  match pat with
  | CStr p =>
      let* items := re_parse p in
      Ok (map (fun e => match snd e with
                        | CStr v => Some (search_items items (list_ascii_of_string v))
                        | _ => None
                        end) s)
  | _ => Raise TypeError
  end.

(** [df.loc[mask, col] = v] for an existing column: a mask with a missing
    value raises ValueError; the cell of every selected row is overwritten. *)
Fixpoint mask_bits (mask : list (option bool)) : result (list bool) :=
  match mask with
  | [] => Ok []
  | Some b :: mask' => let* bs := mask_bits mask' in Ok (b :: bs)
  | None :: _ => Raise ValueError
  end.

Fixpoint assign_rows (j : nat) (v : cell) (bits : list bool)
    (rs : list (label * list cell)) : list (label * list cell) :=
  match bits, rs with
  | b :: bits', r :: rs' =>
      (if b then (fst r, <[j := v]> (snd r)) else r) :: assign_rows j v bits' rs'
  | _, _ => rs
  end.

Definition loc_assign (mask : list (option bool)) (col : label) (v : cell)
    (df : DataFrame) : result DataFrame :=
  let* bits := mask_bits mask in
  match positions col (columns df) with
  | [j] => Ok {| columns := columns df; rows := assign_rows j v bits (rows df) |}
  | _ => Raise Unsupported
  end.

(** [df.set_index(col)]: the column becomes the index and leaves the cells. *)
Definition set_index (col : label) (df : DataFrame) : result DataFrame :=
  let* s := getitem col df in
  let* rest := drop col df in
  Ok {| columns := columns rest;
        rows := map (fun p => (snd (fst p), snd (snd p))) (combine s (rows rest)) |}.

Fixpoint has_dup (ls : list label) : bool :=
  match ls with
  | [] => false
  | l :: ls' => has_label l ls' || has_dup ls'
  end.

Definition lookup_row (l : label) (df : DataFrame) : list cell :=
  match find (fun r => cell_eqb (fst r) l) (rows df) with
  | Some r => snd r
  | None => map (fun _ => CNaN) (columns df)
  end.

(** [df.reindex(index=target)]: when the index equals the target the table is
    returned under the target index; otherwise an index with duplicate labels
    raises ValueError ("cannot reindex on an axis with duplicate labels") and
    a duplicate-free index is looked up label by label, a label that is not
    found giving a row of missing values. *)
Definition reindex (target : list label) (df : DataFrame) : result DataFrame :=
  if list_eqb cell_eqb (index df) target
  then Ok {| columns := columns df;
             rows := map (fun p => (fst p, snd (snd p))) (combine target (rows df)) |}
  else if has_dup (index df) then Raise ValueError
  else Ok {| columns := columns df;
             rows := map (fun l => (l, lookup_row l df)) target |}.

(** ** Object store

    Python passes tables by reference and [df.loc[...] = v] writes into the
    object the caller holds.  The functions that receive tables are therefore
    run over a store of table objects: a location is a position in the
    store, a new object is appended, an assignment replaces the object in
    place. *)

Definition loc := nat.
Abbreviation heap := (list DataFrame).

(** Computations over the store that may raise; the store survives a raise. *)
Definition M (A : Type) : Type := heap -> heap * result A.

Definition ret {A} (a : A) : M A := fun h => (h, Ok a).

Definition mbind {A B} (m : M A) (k : A -> M B) : M B :=
  fun h => match m h with
           | (h', Ok a) => k a h'
           | (h', Raise e) => (h', Raise e)
           end.

Notation "'run' x ':=' m 'in' k" := (mbind m (fun x => k))
  (at level 10, x pattern, m at level 100, k at level 200) : result_scope.

Definition lift {A} (r : result A) : M A := fun h => (h, r).

(** Reading through a reference; a location outside the store names no
    object. *)
Definition read (l : loc) : M DataFrame :=
  fun h => match h !! l with
           | Some df => (h, Ok df)
           | None => (h, Raise Unsupported)
           end.

Definition write (l : loc) (df : DataFrame) : M unit :=
  fun h => (<[l := df]> h, Ok tt).

Definition alloc (df : DataFrame) : M loc :=
  fun h => (h ++ [df], Ok (length h)).

(** A pandas call that is not in place, [df.f(...)]: the table behind the
    reference is read and the outcome is a new object. *)
Definition derive (l : loc) (f : DataFrame -> result DataFrame) : M loc :=
  run df := read l in
  run df' := lift (f df) in
  alloc df'.

(** [encode_estrogen_receptor] on a table object, call by call: every step
    builds a new table and rebinds the local name, and the table received is
    only read. *)
Definition encode_estrogen_receptor_obj (clinical_data : loc) : M loc :=
  run df := read clinical_data in
  run status := lift (match getitem ER_COLUMN df with
                      | Raise AttributeError => Raise KeyError
                      | r => r
                      end) in
  run dummy_data := alloc (get_dummies status) in
  run estrogen_receptor :=
    (run a := read dummy_data in
     run b := read clinical_data in
     alloc (concat_axis1 a b)) in
  run estrogen_receptor := derive estrogen_receptor (drop ER_COLUMN) in
  run estrogen_receptor := derive estrogen_receptor (drop POSITIVE) in
  run estrogen_receptor :=
    derive estrogen_receptor (fun df => Ok (rename NEGATIVE ER_COLUMN df)) in
  derive estrogen_receptor (getitems [ID_COLUMN; ER_COLUMN; STAGE_COLUMN]).

(** ** Sample matcher *)

Definition NAME_COLUMN : label := CStr "NAME".

(** One pass of the loop body:
    [genes_expression.loc[genes_expression["NAME"].str.contains(id), "NAME"] = id]. *)
Definition overwrite_matching (genes_expression : loc) (id : cell) : M unit :=
  run df := read genes_expression in
  run names := lift (getitem NAME_COLUMN df) in
  run mask := lift (str_contains id names) in
  run df' := lift (loc_assign mask NAME_COLUMN id df) in
  write genes_expression df'.

Fixpoint for_each {A} (xs : list A) (body : A -> M unit) : M unit :=
  match xs with
  | [] => ret tt
  | x :: xs' => run _ := body x in for_each xs' body
  end.

(** [create_data_structures_with_matching_sample]: both arguments are
    references; the two returned tables are new objects. *)
Definition create_data_structures_with_matching_sample
    (genes_expression estrogen_receptor : loc) : M (loc * loc) :=
  run er := read estrogen_receptor in
  run ids := lift (getitem ID_COLUMN er) in
  let sample_ID := to_list ids in
  run _ := for_each sample_ID (overwrite_matching genes_expression) in
  run ge := read genes_expression in
  run names := lift (getitem NAME_COLUMN ge) in
  let TCGA_ID := to_list names in
  run er := read estrogen_receptor in
  run ids := lift (getitem ID_COLUMN er) in
  let er' := boolean_mask (isin TCGA_ID ids) er in
  run ge' := lift (set_index NAME_COLUMN ge) in
  run ids' := lift (getitem ID_COLUMN er') in
  run ge'' := lift (reindex (to_list ids') ge') in
  run g := alloc ge'' in
  run e := alloc er' in
  ret (g, e).

(** ** Variability summary *)

(** The float64 value of a cell of a numeric column. *)
Definition numeric (c : cell) : result float :=
  match c with
  | CFloat x => Ok x
  | CInt z => Ok (float_of_Z z)
  | CNaN => Ok nan
  | CStr _ => Raise TypeError
  end.

Fixpoint numeric_column (cs : list cell) : result (list float) :=
  match cs with
  | [] => Ok []
  | c :: cs' =>
      let* x := numeric c in
      let* xs := numeric_column cs' in
      Ok (x :: xs)
  end.

(** *** The sum of a float64 array

    The two sums of [nanvar] are numpy reductions, and the order in which
    numpy adds depends on how the block of the table lies in memory.  When
    the values of a column are contiguous, numpy adds them pairwise: fewer
    than 8 values go left to right; up to 128 values go through 8 running
    sums over the groups of 8, which are combined as a tree before the
    remaining values are added; a longer array is split in two at a multiple
    of 8 near the middle.  When they are strided (sample-major, as after
    [.T]), numpy adds row after row, left to right.  The start value [zero]
    is 0.0, or -0.0 in the versions of numpy that keep the sign of a sum of
    negative zeros; the pairwise sum is added to the start value that the
    result holds, which changes a sum of fewer than 8 values in no way.
    pandas is taken without the optional bottleneck accelerator. *)

Section Sum.
Variable zero : float.

Definition strided_sum (xs : list float) : float :=
  fold_left PrimFloat.add xs zero.

Definition combine8 (r0 r1 r2 r3 r4 r5 r6 r7 : float) : float :=
  ((r0 + r1) + (r2 + r3)) + ((r4 + r5) + (r6 + r7)).

Fixpoint block_loop (r0 r1 r2 r3 r4 r5 r6 r7 : float) (xs : list float) : float :=
  match xs with
  | x0 :: x1 :: x2 :: x3 :: x4 :: x5 :: x6 :: x7 :: xs' =>
      block_loop (r0 + x0) (r1 + x1) (r2 + x2) (r3 + x3)
                 (r4 + x4) (r5 + x5) (r6 + x6) (r7 + x7) xs'
  | rest => fold_left PrimFloat.add rest (combine8 r0 r1 r2 r3 r4 r5 r6 r7)
  end.

Definition block_sum (xs : list float) : float :=
  match xs with
  | x0 :: x1 :: x2 :: x3 :: x4 :: x5 :: x6 :: x7 :: xs' =>
      block_loop x0 x1 x2 x3 x4 x5 x6 x7 xs'
  | _ => fold_left PrimFloat.add xs zero
  end.

(** [fuel] bounds the depth of the splitting; the length of the array is
    always enough, since each half is shorter. *)
Fixpoint pairwise_sum (fuel : nat) (xs : list float) : float :=
  let n := length xs in
  if (n <=? 128)%nat then block_sum xs
  else
    match fuel with
    | O => block_sum xs
    | S fuel' =>
        let n2 := (n / 2 - (n / 2) mod 8)%nat in
        (pairwise_sum fuel' (firstn n2 xs) + pairwise_sum fuel' (skipn n2 xs))%float
    end.

Definition contiguous_sum (xs : list float) : float :=
  if (length xs <? 8)%nat then fold_left PrimFloat.add xs zero
  else (zero + pairwise_sum (length xs) xs)%float.

End Sum.

(** What is common to the ways numpy sums: fewer than 8 values are added
    left to right, starting from a zero. *)
Definition sums_in_order (np_sum : list float -> float) : Prop :=
  exists zero, (zero = 0%float \/ zero = (-0)%float) /\
    forall xs, (length xs < 8)%nat -> np_sum xs = fold_left PrimFloat.add xs zero.

Section Std.

(** The sum that numpy performs on the block at hand. *)
Variable np_sum : list float -> float.

(** [nanvar] of pandas for one column: missing values are skipped
    ([skipna=True]); with [count] values left and [count <= ddof] the
    result is NaN; otherwise the sum of the squared deviations from the
    mean is divided by [count - ddof]. *)
Definition nanvar (ddof : nat) (values : list float) : float :=
  let present := List.filter (fun x => negb (PrimFloat.is_nan x)) values in
  let count := length present in
  if (count <=? ddof)%nat then nan
  else
    let zeroed := map (fun x => if PrimFloat.is_nan x then 0%float else x) values in
    let avg := PrimFloat.div (np_sum zeroed) (float_of_Z (Z.of_nat count)) in
    let sqr := map (fun x => if PrimFloat.is_nan x then 0%float
                             else PrimFloat.mul (PrimFloat.sub avg x) (PrimFloat.sub avg x))
                   values in
    PrimFloat.div (np_sum sqr) (float_of_Z (Z.of_nat (count - ddof))).

Definition nanstd (ddof : nat) (values : list float) : float :=
  PrimFloat.sqrt (nanvar ddof values).

(** [df.std()]: [ddof=1] and [axis=0] are the defaults, one value per
    column; a column with a string in it raises TypeError (pandas 2). *)
Fixpoint std_columns (df : DataFrame) (js : list nat) : result Series :=
  match js with
  | [] => Ok []
  | j :: js' =>
      let* xs := numeric_column (column_at j df) in
      let* rest := std_columns df js' in
      Ok ((cell_at j (columns df), CFloat (nanstd 1 xs)) :: rest)
  end.

Definition std (df : DataFrame) : result Series :=
  std_columns df (seq 0 (length (columns df))).

(** [get_std]. *)
Definition get_std (genes_expression : DataFrame) : result Series :=
  std genes_expression.

(** [get_std] on a table object; the resulting Series is a value. *)
Definition get_std_obj (genes_expression : loc) : M Series :=
  run df := read genes_expression in
  lift (get_std df).

End Std.



(** ** Notions used in the statements

    None of the following is part of the program: they name what the
    theorems say about it. *)

(** Whether the ER status found at position [j] is one of the two
    categories. *)
Definition er_ok (j : nat) (r : label * list cell) : bool :=
  existsb (cell_eqb (cell_at j (snd r))) [NEGATIVE; POSITIVE].

(** The rows that the category filter keeps, with the ER status at
    position [j]. *)
Definition filtered (j : nat) (df : DataFrame) : DataFrame :=
  {| columns := columns df;
     rows := List.filter (er_ok j) (List.filter complete_row (rows df)) |}.

(** The shape of the clinical loader's output: the three columns, and in
    every row an ER status that is one of the two categories and no missing
    sample ID or stage. *)
Definition clinical_row (r : label * list cell) : Prop :=
  exists id er stage,
    snd r = [id; er; stage] /\
    (er = CStr "Negative" \/ er = CStr "Positive") /\
    is_missing id = false /\ is_missing er = false /\ is_missing stage = false.

Definition clinical_table (df : DataFrame) : Prop :=
  columns df = [ID_COLUMN; ER_COLUMN; STAGE_COLUMN] /\
  forall r, In r (rows df) -> clinical_row r.

(** The encoded row the encoder is expected to produce: the ER status is
    replaced by the indicator of "Negative". *)
Definition encode_row (r : label * list cell) : label * list cell :=
  (fst r,
   [cell_at 0 (snd r);
    CInt (if cell_eqb (cell_at 1 (snd r)) NEGATIVE then 1 else 0);
    cell_at 2 (snd r)]).

(** The effect of one pass over a name when the ID is searched as a plain
    substring: a name that contains the ID becomes the ID. *)
Definition name_step (c : cell) (id : string) : cell :=
  match c with
  | CStr nm => if substring_of id nm then CStr id else c
  | _ => c
  end.

(** The same pass on a row and on a table, with the name at position [j]. *)
Definition overwrite_row (j : nat) (id : string) (r : label * list cell) : label * list cell :=
  match cell_at j (snd r) with
  | CStr nm => if substring_of id nm then (fst r, <[j := CStr id]> (snd r)) else r
  | _ => r
  end.

Definition overwrite_frame (j : nat) (df : DataFrame) (id : string) : DataFrame :=
  {| columns := columns df; rows := map (overwrite_row j id) (rows df) |}.

(** The table [df] with the name at position [j] of every row folded over
    the IDs with [name_step]. *)
Definition with_names (j : nat) (ids : list string) (df : DataFrame) : DataFrame :=
  {| columns := columns df;
     rows := map (fun r => (fst r, <[j := fold_left name_step ids (cell_at j (snd r))]> (snd r)))
                 (rows df) |}.

(** The pattern that a string without special characters is parsed to. *)
Definition literal (cs : list ascii) : list item := map (fun c => (Lit c, Once)) cs.

(** Whether the name of a row contains the ID. *)
Definition name_test (j : nat) (id : string) (r : label * list cell) : bool :=
  match cell_at j (snd r) with
  | CStr v => substring_of id v
  | _ => false
  end.

(** [df'] differs from [df] at most in the cells of the column "NAME". *)
Definition same_but_names (df df' : DataFrame) : Prop :=
  columns df' = columns df /\
  Forall2 (fun r r' =>
             fst r' = fst r /\
             length (snd r') = length (snd r) /\
             forall j, cell_at j (columns df) <> NAME_COLUMN ->
                       cell_at j (snd r') = cell_at j (snd r))
          (rows df) (rows df').

(** What a computation may do to the store when only the object at [ge] is
    written, and only in its "NAME" column: every other object stays, new
    objects may appear. *)
Definition heap_frame (ge : loc) (h h' : heap) : Prop :=
  (forall l df, l <> ge -> h !! l = Some df -> h' !! l = Some df) /\
  (forall df, h !! ge = Some df ->
              exists df', h' !! ge = Some df' /\ same_but_names df df').

(** A computation that respects [heap_frame] from every store. *)
Definition frames {A} (ge : loc) (m : M A) : Prop :=
  forall h h' r, m h = (h', r) -> heap_frame ge h h'.

(** A computation that overwrites no object: every object of the store it
    starts from is still there, as it was, in the store it leaves. *)
Definition keeps {A} (m : M A) : Prop :=
  forall h h' r, m h = (h', r) ->
  forall l df, h !! l = Some df -> h' !! l = Some df.



(** ** Example tables *)

(** A parsed gene-by-sample matrix: gene "g2" has a missing value. *)
Definition sample_matrix : DataFrame :=
  {| columns := [CStr "TCGA-A1-01-sample"; CStr "TCGA-A2-02-sample"];
     rows := [(CStr "g1", [CFloat 2; CFloat 4]);
              (CStr "g2", [CNaN; CFloat 1]);
              (CStr "g3", [CFloat 1; CFloat 7])] |}.

(** What the expression loader makes of it. *)
Definition sample_expression : DataFrame :=
  {| columns := [CStr "NAME"; CStr "g1"; CStr "g3"];
     rows := [(CInt 0, [CStr "TCGA-A1-01-sample"; CFloat 2; CFloat 1]);
              (CInt 1, [CStr "TCGA-A2-02-sample"; CFloat 4; CFloat 7])] |}.

(** A parsed matrix whose first sample column holds integers and whose
    second holds floats. *)
Definition mixed_matrix : DataFrame :=
  {| columns := [CStr "s1"; CStr "s2"];
     rows := [(CStr "g1", [CInt 4; CFloat 0.5]);
              (CStr "g3", [CInt 7; CFloat 1.5])] |}.

(** A parsed clinical sheet: one row with another category, one with a
    missing stage. *)
Definition sample_sheet : DataFrame :=
  {| columns := [CStr "Gender"; CStr "Complete TCGA ID"; CStr "ER Status"; CStr "AJCC Stage"];
     rows := [(CInt 0, [CStr "F"; CStr "TCGA-A1-01"; CStr "Negative"; CStr "I"]);
              (CInt 1, [CStr "F"; CStr "TCGA-A2-02"; CStr "Positive"; CStr "II"]);
              (CInt 2, [CStr "F"; CStr "TCGA-A3-03"; CStr "Indeterminate"; CStr "II"]);
              (CInt 3, [CStr "M"; CStr "TCGA-A4-04"; CStr "Positive"; CNaN])] |}.

(** What the clinical loader makes of it. *)
Definition sample_clinical : DataFrame :=
  {| columns := [CStr "Complete TCGA ID"; CStr "ER Status"; CStr "AJCC Stage"];
     rows := [(CInt 0, [CStr "TCGA-A1-01"; CStr "Negative"; CStr "I"]);
              (CInt 1, [CStr "TCGA-A2-02"; CStr "Positive"; CStr "II"])] |}.

(** A clinical table in which only "Negative" occurs. *)
Definition negative_only : DataFrame :=
  {| columns := [CStr "Complete TCGA ID"; CStr "ER Status"; CStr "AJCC Stage"];
     rows := [(CInt 0, [CStr "TCGA-A1-01"; CStr "Negative"; CStr "I"])] |}.

(** Small tables for the matcher: a clinical table with the given sample
    IDs and an expression table with the given names. *)
Definition clinical_with (ids : list string) : DataFrame :=
  {| columns := [ID_COLUMN; ER_COLUMN; STAGE_COLUMN];
     rows := number_from 0 (map (fun id => (CStr id, [NEGATIVE; CStr "I"])) ids) |}.

Definition expression_named (names : list string) : DataFrame :=
  {| columns := [NAME_COLUMN; CStr "g1"];
     rows := number_from 0 (map (fun nm => (CStr nm, [CFloat 1])) names) |}.

(** The store of the example of the specification. *)
Definition sample_heap : heap := [sample_expression; sample_clinical].

(** Whether the clinical loader keeps a row of the parsed sheet, whose sample
    ID, ER status and stage are at the positions [i], [j] and [k]. *)
Definition kept_row (i j k : nat) (r : label * list cell) : bool :=
  negb (is_missing (cell_at i (snd r)))
  && negb (is_missing (cell_at k (snd r)))
  && (cell_eqb (cell_at j (snd r)) NEGATIVE || cell_eqb (cell_at j (snd r)) POSITIVE).

(** The three selected fields of a row, under the row's own label. *)
Definition selected_row (i j k : nat) (r : label * list cell) : label * list cell :=
  (fst r, [cell_at i (snd r); cell_at j (snd r); cell_at k (snd r)]).

(** [df'] has the columns of [df] and, row by row, at position [j] either
    the cell of [df] or one of [ids]. *)
Definition renamed_within (ids : list cell) (j : nat) (df df' : DataFrame) : Prop :=
  columns df' = columns df /\
  Forall2 (fun r r' =>
             cell_at j (snd r') = cell_at j (snd r) \/ In (cell_at j (snd r')) ids)
          (rows df) (rows df').

(** The name a string ends as after the passes for [ids], when the IDs are
    searched as plain substrings. *)
Definition final_name (ids : list string) (nm : string) : string :=
  fold_left (fun n id => if substring_of id n then id else n) ids nm.

(** A parsed matrix with a gene labelled "index", and one that has a gene
    labelled "level_0" as well. *)
Definition index_matrix : DataFrame :=
  {| columns := [CStr "s1"; CStr "s2"];
     rows := [(CStr "index", [CFloat 1; CFloat 2]); (CStr "g1", [CFloat 3; CFloat 4])] |}.

Definition clash_matrix : DataFrame :=
  {| columns := [CStr "s1"; CStr "s2"];
     rows := [(CStr "index", [CFloat 1; CFloat 2]); (CStr "level_0", [CFloat 3; CFloat 4])] |}.

(** A parsed clinical sheet without the column "AJCC Stage". *)
Definition sheet_without_stage : DataFrame :=
  {| columns := [CStr "Complete TCGA ID"; CStr "ER Status"];
     rows := [(CInt 0, [CStr "TCGA-A1-01"; CStr "Negative"])] |}.

(** An expression table without the column "NAME". *)
Definition unnamed_expression : DataFrame :=
  {| columns := [CStr "g1"]; rows := [(CInt 0, [CFloat 1])] |}.

(** A table with a single sample. *)
Definition one_sample : DataFrame :=
  {| columns := [CStr "g1"; CStr "g2"]; rows := [(CStr "s1", [CFloat 2; CFloat 5])] |}.

(** * Properties *)

(** ** Results *)

Lemma bind_Ok {A B} (r : result A) (k : A -> result B) (b : B) :
  bind r k = Ok b -> exists a, r = Ok a /\ k a = Ok b.
Proof. destruct r as [a|e]; simpl; [eauto | discriminate]. Qed.

Ltac bind_inv H :=
  let a := fresh "x" in
  let Ha := fresh "H" a in
  apply bind_Ok in H; destruct H as (a & Ha & H).

(** ** Cells *)

Lemma cell_eqb_str_r (c : cell) (s : string) :
  cell_eqb c (CStr s) = true <-> c = CStr s.
Proof.
  destruct c; simpl; split; try discriminate; try congruence.
  - intros H. apply String.eqb_eq in H. now subst.
  - intros H. inversion H. apply String.eqb_refl.
Qed.

Lemma cell_eqb_str_l (c : cell) (s : string) :
  cell_eqb (CStr s) c = true <-> c = CStr s.
Proof.
  destruct c; simpl; split; try discriminate; try congruence.
  - intros H. apply String.eqb_eq in H. now subst.
  - intros H. inversion H. apply String.eqb_refl.
Qed.

(** The conversion of an integer to float64 never gives NaN: rounding keeps
    the mantissa non-negative, which is all that [binary_round_aux] needs. *)
Section NotNaN.
Variables p e : Z.

Lemma shr_1_nonneg (mrs : shr_record) :
  (0 <= shr_m mrs)%Z -> (0 <= shr_m (shr_1 mrs))%Z.
Proof.
  destruct mrs as [m r s]. simpl.
  destruct m as [|[q|q|]|[q|q|]]; simpl; lia.
Qed.

Lemma iter_pos_nonneg (n : positive) (mrs : shr_record) :
  (0 <= shr_m mrs)%Z -> (0 <= shr_m (SpecFloat.iter_pos shr_1 n mrs))%Z.
Proof.
  revert mrs. induction n as [n IH|n IH|]; intros mrs H; simpl.
  - apply IH, IH. now apply shr_1_nonneg.
  - apply IH, IH. exact H.
  - now apply shr_1_nonneg.
Qed.

Lemma shr_fexp_nonneg (m ex : Z) (l : location) :
  (0 <= m)%Z -> (0 <= shr_m (fst (shr_fexp p e m ex l)))%Z.
Proof.
  intros H. unfold shr_fexp, shr.
  assert (H0 : (0 <= shr_m (shr_record_of_loc m l))%Z)
    by (destruct l as [|[| |]]; exact H).
  destruct (fexp p e (Zdigits2 m + ex) - ex)%Z; simpl; auto.
  now apply iter_pos_nonneg.
Qed.

Lemma round_nearest_even_nonneg (m : Z) (l : location) :
  (0 <= m)%Z -> (0 <= round_nearest_even m l)%Z.
Proof.
  intros H. destruct l as [|[| |]]; simpl; try lia.
  destruct (Z.even m); lia.
Qed.

Lemma binary_round_aux_not_nan (sx : bool) (mx ex : Z) (lx : location) :
  (0 <= mx)%Z -> binary_round_aux p e sx mx ex lx <> S754_nan.
Proof.
  intros H. unfold binary_round_aux.
  pose proof (shr_fexp_nonneg mx ex lx H) as H1.
  destruct (shr_fexp p e mx ex lx) as [mrs' e'] eqn:E1. simpl in H1.
  pose proof (shr_fexp_nonneg _ e' loc_Exact
                (round_nearest_even_nonneg _ (loc_of_shr_record mrs') H1)) as H2.
  destruct (shr_fexp p e (round_nearest_even (shr_m mrs') (loc_of_shr_record mrs')) e' loc_Exact)
    as [mrs'' e''] eqn:E2. simpl in H2.
  destruct (shr_m mrs''); try discriminate; [|lia].
  destruct (Z.leb e'' (e - p)); discriminate.
Qed.

Lemma binary_round_not_nan (sx : bool) (mx : positive) (ex : Z) :
  binary_round p e sx mx ex <> S754_nan.
Proof.
  unfold binary_round.
  destruct (shl_align mx ex _) as [mz ez].
  apply binary_round_aux_not_nan. lia.
Qed.

Lemma binary_normalize_not_nan (m ex : Z) (sz : bool) :
  binary_normalize p e m ex sz <> S754_nan.
Proof.
  destruct m; simpl; [discriminate | apply binary_round_not_nan..].
Qed.
End NotNaN.

Lemma SFeqb_refl (s : spec_float) : s <> S754_nan -> SFeqb s s = true.
Proof.
  unfold SFeqb, SFcompare. destruct s as [b|b| |b m e]; try congruence; intros _;
    try (destruct b; reflexivity).
  destruct b; rewrite Z.compare_refl;
    change (PosDef.Pos.compare_cont Eq m m) with (Pos.compare m m);
    now rewrite Pos.compare_refl.
Qed.

Lemma is_nan_Prim2SF (x : float) : Prim2SF x <> S754_nan -> PrimFloat.is_nan x = false.
Proof.
  intros H. unfold PrimFloat.is_nan. rewrite FloatAxioms.eqb_spec.
  now rewrite SFeqb_refl.
Qed.

Lemma float_of_Z_not_nan (z : Z) : PrimFloat.is_nan (float_of_Z z) = false.
Proof.
  unfold float_of_Z.
  pose proof (binary_normalize_not_nan prec emax z 0 false) as H.
  destruct (binary_normalize prec emax z 0 false) as [b|b| |b m e]; try congruence; clear H.
  - destruct b; reflexivity.
  - destruct b; reflexivity.
  - apply is_nan_Prim2SF. unfold SF2Prim.
    assert (Hl : Prim2SF (Z.ldexp (of_uint63 (Uint63Axioms.of_Z (Z.pos m))) e) <> S754_nan).
    { rewrite FloatLemmas.Z_ldexp_spec, FloatAxioms.of_uint63_spec. unfold SFldexp.
      pose proof (binary_normalize_not_nan prec emax
                    (Uint63Axioms.to_Z (Uint63Axioms.of_Z (Z.pos m))) 0 false) as H.
      destruct (binary_normalize prec emax _ 0 false); try congruence.
      apply binary_round_not_nan. }
    destruct b; [|exact Hl].
    rewrite FloatAxioms.opp_spec.
    destruct (Prim2SF (Z.ldexp _ e)); try congruence; discriminate.
Qed.

Lemma is_missing_astype (d : dtype) (c : cell) :
  is_missing (astype d c) = is_missing c.
Proof.
  destruct d, c; simpl; try reflexivity. apply float_of_Z_not_nan.
Qed.

Lemma cell_at_astype (d : dtype) (j : nat) (cs : list cell) :
  (j < length cs)%nat -> cell_at j (map (astype d) cs) = astype d (cell_at j cs).
Proof.
  intros Hj. unfold cell_at.
  rewrite (nth_indep _ CNaN (astype d CNaN)) by (now rewrite length_map).
  apply map_nth.
Qed.

Lemma cell_at_cons (j : nat) (c : cell) (cs : list cell) :
  (1 <= j)%nat -> cell_at j (c :: cs) = cell_at (j - 1) cs.
Proof. destruct j; [lia|]. intros _. simpl. now rewrite Nat.sub_0_r. Qed.

Lemma cell_at_In (j : nat) (cs : list cell) :
  (j < length cs)%nat -> In (cell_at j cs) cs.
Proof. apply nth_In. Qed.

(** ** Completeness of the expression loader *)

Lemma complete_row_cell (r : label * list cell) (j : nat) :
  complete_row r = true -> (j < length (snd r))%nat ->
  is_missing (cell_at j (snd r)) = false.
Proof.
  unfold complete_row. intros Hc Hj.
  rewrite forallb_forall in Hc.
  specialize (Hc _ (cell_at_In j _ Hj)).
  now apply negb_true_iff in Hc.
Qed.

Lemma dropna_rows (df : DataFrame) (r : label * list cell) :
  In r (rows (dropna df)) <-> In r (rows df) /\ complete_row r = true.
Proof. unfold dropna; simpl. apply filter_In. Qed.

Lemma dropna_rectangular (df : DataFrame) :
  rectangular df -> rectangular (dropna df).
Proof.
  unfold rectangular. rewrite !List.Forall_forall. intros H r Hr.
  apply dropna_rows in Hr. simpl. now apply H.
Qed.

Lemma cell_at_column_at (df : DataFrame) (j i : nat) :
  (i < length (rows df))%nat ->
  exists r, In r (rows df) /\ cell_at i (column_at j df) = cell_at j (snd r).
Proof.
  intros Hi. unfold column_at.
  destruct (nth_error (rows df) i) as [r|] eqn:Hr.
  - exists r. split; [eapply nth_error_In; eauto|].
    unfold cell_at at 1.
    rewrite (nth_indep _ CNaN ((fun r0 => cell_at j (snd r0)) r))
      by (rewrite length_map; exact Hi).
    rewrite (map_nth (fun r0 => cell_at j (snd r0))).
    now rewrite (nth_error_nth _ _ r Hr).
  - apply nth_error_None in Hr. lia.
Qed.

Lemma number_from_In (n : nat) (rs : list (label * list cell)) (r : label * list cell) :
  In r (number_from n rs) -> exists r0, In r0 rs /\ snd r = fst r0 :: snd r0.
Proof.
  revert n. induction rs as [|r0 rs IH]; simpl; intros n H; [contradiction|].
  destruct H as [<-|H].
  - exists r0. auto.
  - destruct (IH _ H) as (r1 & ? & ?). eauto.
Qed.

Lemma transpose_rows_In (df : DataFrame) (r : label * list cell) :
  In r (rows (transpose df)) ->
  exists k, (k < length (columns df))%nat /\
            snd r = map (astype (common_dtype df)) (column_at k df).
Proof.
  unfold transpose; simpl. intros H.
  apply in_map_iff in H. destruct H as (k & <- & Hk).
  apply in_seq in Hk. exists k. split; [lia | reflexivity].
Qed.

Lemma reset_index_Ok (df out : DataFrame) :
  reset_index df = Ok out ->
  rows out = number_from 0 (rows df) /\
  exists name, columns out = name :: columns df.
Proof.
  unfold reset_index. destruct (has_label _ (columns df)); [discriminate|].
  intros H. inversion H; subst; simpl. eauto.
Qed.

(** C3: in the table that [load_gene_expression_data] returns, no gene column
    (any column after the sample-identifier column) of any row holds a
    missing value. *)
Theorem load_gene_expression_data_complete (parsed out : DataFrame) :
  rectangular parsed ->
  load_gene_expression_data parsed = Ok out ->
  forall r j, In r (rows out) ->
    (1 <= j < length (columns out))%nat ->
    is_missing (cell_at j (snd r)) = false.
Proof.
  intros Hrect Hload r j Hr Hj.
  unfold load_gene_expression_data in Hload.
  bind_inv Hload. inversion Hload; subst out; clear Hload.
  apply reset_index_Ok in Hx. destruct Hx as (Hrows & name & Hcols).
  simpl in Hr, Hj. rewrite length_map, Hcols in Hj. simpl in Hj.
  rewrite Hrows in Hr.
  apply number_from_In in Hr. destruct Hr as (r0 & Hr0 & ->).
  apply transpose_rows_In in Hr0. destruct Hr0 as (k & Hk & Hr0).
  rewrite cell_at_cons, Hr0 by lia.
  unfold index in Hj. rewrite length_map in Hj.
  rewrite cell_at_astype, is_missing_astype
    by (unfold column_at; rewrite length_map; lia).
  destruct (cell_at_column_at (dropna parsed) k (j - 1)) as (r' & Hr' & ->); [lia|].
  pose proof (dropna_rectangular _ Hrect) as Hrect'.
  unfold rectangular in Hrect'. rewrite List.Forall_forall in Hrect'.
  specialize (Hrect' _ Hr').
  apply dropna_rows in Hr'. destruct Hr' as [_ Hc].
  apply complete_row_cell; [assumption | lia].
Qed.

(** ** The clinical loader *)

Lemma positions_from_In (l : label) (ls : list label) (n j : nat) :
  In j (positions_from n l ls) ->
  (n <= j)%nat /\ cell_eqb (cell_at (j - n) ls) l = true.
Proof.
  revert n. induction ls as [|c ls IH]; simpl; intros n H; [contradiction|].
  destruct (cell_eqb c l) eqn:Hc.
  - destruct H as [<-|H].
    + rewrite Nat.sub_diag. simpl. auto.
    + apply IH in H. destruct H as [Hn H]. split; [lia|].
      replace (j - n)%nat with (S (j - S n)) by lia. exact H.
  - apply IH in H. destruct H as [Hn H]. split; [lia|].
    replace (j - n)%nat with (S (j - S n)) by lia. exact H.
Qed.

Lemma positions_cell_at (s : string) (ls : list label) (j : nat) :
  In j (positions (CStr s) ls) -> cell_at j ls = CStr s.
Proof.
  intros H. apply positions_from_In in H. destruct H as [_ H].
  rewrite Nat.sub_0_r in H. now apply cell_eqb_str_r in H.
Qed.

Lemma mask_select_map {A} (p : A -> bool) (xs : list A) :
  mask_select (map p xs) xs = List.filter p xs.
Proof.
  induction xs as [|x xs IH]; simpl; [reflexivity|].
  rewrite IH. reflexivity.
Qed.

Lemma filter_all {A} (p : A -> bool) (xs : list A) :
  (forall x, In x xs -> p x = true) -> List.filter p xs = xs.
Proof.
  induction xs as [|x xs IH]; simpl; intros H; [reflexivity|].
  rewrite (H x) by auto. f_equal. apply IH. auto.
Qed.

Lemma er_ok_iff (j : nat) (r : label * list cell) :
  er_ok j r = true <-> cell_at j (snd r) = NEGATIVE \/ cell_at j (snd r) = POSITIVE.
Proof.
  unfold er_ok, NEGATIVE, POSITIVE. simpl.
  rewrite orb_false_r, orb_true_iff, !cell_eqb_str_r. reflexivity.
Qed.

Lemma category_filter_inv (df out : DataFrame) :
  category_filter df = Ok out ->
  exists j, positions ER_COLUMN (columns df) = [j] /\ out = filtered j df.
Proof.
  unfold category_filter, getitem. simpl.
  destruct (positions ER_COLUMN (columns df)) as [|j [|j' js]] eqn:Hp;
    simpl; try discriminate.
  intros H. inversion H; subst out; clear H.
  exists j. split; [reflexivity|].
  unfold boolean_mask, isin, filtered. simpl. f_equal.
  rewrite map_map. simpl.
  apply (mask_select_map (er_ok j)).
Qed.

Lemma category_filter_Ok (df : DataFrame) (j : nat) :
  positions ER_COLUMN (columns df) = [j] ->
  category_filter df = Ok (filtered j df).
Proof.
  intros Hp. unfold category_filter, getitem. simpl. rewrite Hp. simpl.
  unfold boolean_mask, isin, filtered. simpl. do 2 f_equal.
  rewrite map_map. simpl.
  apply (mask_select_map (er_ok j)).
Qed.

Lemma filtered_idem (j : nat) (df : DataFrame) :
  filtered j (filtered j df) = filtered j df.
Proof.
  unfold filtered. simpl. f_equal.
  rewrite (filter_all complete_row).
  - apply filter_all. intros r Hr. now apply filter_In in Hr.
  - intros r Hr. apply filter_In in Hr. destruct Hr as [Hr _].
    now apply filter_In in Hr.
Qed.

(** C7: the category filter of the clinical loader applied to the loader's
    own output returns that output unchanged. *)
Theorem category_filter_idempotent (parsed out : DataFrame) :
  load_clinical_data parsed = Ok out ->
  category_filter out = Ok out.
Proof.
  unfold load_clinical_data. intros H. bind_inv H.
  apply category_filter_inv in H. destruct H as (j & Hp & ->).
  rewrite (category_filter_Ok (filtered j x) j) by exact Hp.
  now rewrite filtered_idem.
Qed.

Lemma getitems_three (df : DataFrame) (a b c : string) (i j k : nat) :
  positions (CStr a) (columns df) = [i] ->
  positions (CStr b) (columns df) = [j] ->
  positions (CStr c) (columns df) = [k] ->
  getitems [CStr a; CStr b; CStr c] df =
  Ok {| columns := [CStr a; CStr b; CStr c];
        rows := map (fun r => (fst r, [cell_at i (snd r); cell_at j (snd r); cell_at k (snd r)]))
                    (rows df) |}.
Proof.
  intros Ha Hb Hc. unfold getitems. simpl. rewrite Ha, Hb, Hc. simpl.
  rewrite (positions_cell_at a _ i), (positions_cell_at b _ j), (positions_cell_at c _ k);
    [reflexivity | rewrite Hc | rewrite Hb | rewrite Ha]; simpl; auto.
Qed.

Lemma load_clinical_data_table (parsed : DataFrame) (i j k : nat) :
  positions ID_COLUMN (columns parsed) = [i] ->
  positions ER_COLUMN (columns parsed) = [j] ->
  positions STAGE_COLUMN (columns parsed) = [k] ->
  exists out, load_clinical_data parsed = Ok out /\ clinical_table out.
Proof.
  intros Hi Hj Hk.
  pose (sel := {| columns := [ID_COLUMN; ER_COLUMN; STAGE_COLUMN];
                  rows := map (fun r => (fst r, [cell_at i (snd r); cell_at j (snd r);
                                                 cell_at k (snd r)])) (rows parsed) |}).
  exists (filtered 1 sel). split; [|split; [reflexivity|]].
  { unfold load_clinical_data.
    unfold ID_COLUMN, ER_COLUMN, STAGE_COLUMN in *.
    rewrite (getitems_three parsed _ _ _ i j k Hi Hj Hk). cbn [bind].
    exact (category_filter_Ok sel 1 eq_refl). }
  intros r Hr. unfold filtered in Hr. simpl in Hr.
  apply filter_In in Hr. destruct Hr as [Hr Her].
  apply filter_In in Hr. destruct Hr as [Hr Hc].
  apply in_map_iff in Hr. destruct Hr as (r0 & <- & _).
  apply er_ok_iff in Her. simpl in Her.
  unfold complete_row in Hc. simpl in Hc.
  rewrite !andb_true_iff, !negb_true_iff in Hc.
  destruct Hc as (Hid & Her' & Hst & _).
  do 3 eexists. split; [reflexivity|]. auto.
Qed.

(** C4: when the parsed sheet has the three columns, [load_clinical_data]
    returns a table (no error, whatever the category values are) with exactly
    these columns, in which every row has an ER status equal to "Negative" or
    to "Positive" and no missing sample ID, ER status or stage. *)
Theorem load_clinical_data_rows (parsed : DataFrame) (i j k : nat) :
  positions ID_COLUMN (columns parsed) = [i] ->
  positions ER_COLUMN (columns parsed) = [j] ->
  positions STAGE_COLUMN (columns parsed) = [k] ->
  exists out,
    load_clinical_data parsed = Ok out /\
    columns out = [ID_COLUMN; ER_COLUMN; STAGE_COLUMN] /\
    forall r, In r (rows out) ->
      exists id er stage,
        snd r = [id; er; stage] /\
        (er = CStr "Negative" \/ er = CStr "Positive") /\
        is_missing id = false /\ is_missing er = false /\ is_missing stage = false.
Proof.
  intros Hi Hj Hk.
  destruct (load_clinical_data_table parsed i j k Hi Hj Hk) as (out & Hload & Hcols & Hrows).
  exists out. auto.
Qed.

(** ** The category encoder *)

Lemma levels_cons (v : cell) (vs : list cell) :
  is_missing v = false -> levels (v :: vs) = insert_level v (levels vs).
Proof. intros H. unfold levels. simpl. now rewrite H. Qed.

(** The categories of a column of "Negative" and "Positive" values. *)
Lemma levels_categories (vs : list cell) :
  (forall v, In v vs -> v = NEGATIVE \/ v = POSITIVE) ->
  levels vs =
  (if has_label NEGATIVE vs then [NEGATIVE] else []) ++
  (if has_label POSITIVE vs then [POSITIVE] else []).
Proof.
  induction vs as [|v vs IH]; intros H; [reflexivity|].
  rewrite levels_cons by (destruct (H v) as [->| ->]; simpl; auto).
  rewrite IH by (intros; apply H; simpl; auto).
  unfold has_label. simpl.
  destruct (H v) as [->| ->]; [simpl; auto| |simpl; auto];
    destruct (existsb (cell_eqb NEGATIVE) vs), (existsb (cell_eqb POSITIVE) vs);
    reflexivity.
Qed.

Lemma has_label_In (s : string) (ls : list label) :
  has_label (CStr s) ls = true <-> In (CStr s) ls.
Proof.
  unfold has_label. rewrite existsb_exists. split.
  - intros (c & Hc & Heq). apply cell_eqb_str_l in Heq. now subst.
  - intros H. exists (CStr s). split; [assumption|]. now apply cell_eqb_str_l.
Qed.

Lemma paste_rows_map (f : label * list cell -> list cell) (rs : list (label * list cell)) :
  paste_rows (map (fun r => (fst r, f r)) rs) rs = map (fun r => (fst r, f r ++ snd r)) rs.
Proof. induction rs as [|r rs IH]; simpl; [reflexivity|]. now rewrite IH. Qed.

Lemma encode_on_table (rs : list (label * list cell)) :
  (forall r, In r rs -> clinical_row r) ->
  let cd := {| columns := [ID_COLUMN; ER_COLUMN; STAGE_COLUMN]; rows := rs |} in
  encode_estrogen_receptor cd =
  if has_label NEGATIVE (column_at 1 cd) && has_label POSITIVE (column_at 1 cd)
  then Ok {| columns := [ID_COLUMN; ER_COLUMN; STAGE_COLUMN]; rows := map encode_row rs |}
  else Raise KeyError.
Proof.
  intros Hrs cd.
  unfold encode_estrogen_receptor.
  change (getitem ER_COLUMN cd) with (Ok (map (fun r => (fst r, cell_at 1 (snd r))) rs)).
  cbn [bind]. unfold get_dummies, to_list. rewrite map_map. cbn [snd].
  rewrite levels_categories.
  2:{ intros v Hv. apply in_map_iff in Hv. destruct Hv as (r & <- & Hr).
      destruct (Hrs r Hr) as (id & er & st & -> & Her & _). exact Her. }
  change (column_at 1 cd) with (map (fun r => cell_at 1 (snd r)) rs).
  destruct (has_label NEGATIVE _), (has_label POSITIVE _); cbn [app andb];
    [|reflexivity..].
  unfold concat_axis1. cbn [rows columns]. rewrite map_map. cbn [fst snd].
  rewrite (paste_rows_map
             (fun r => map (fun l => CInt (if cell_eqb (cell_at 1 (snd r)) l then 1%Z else 0%Z))
                           [NEGATIVE; POSITIVE])).
  subst cd. unfold drop, getitems, rename. cbn -[cell_at drop_cells].
  rewrite !map_map. do 2 f_equal.
  apply map_ext_in. intros r Hr.
  destruct (Hrs r Hr) as (id & er & st & Heq & _).
  destruct r as [l cs]. simpl in Heq. subst cs. reflexivity.
Qed.

(** C1: on a table shaped like the clinical loader's output in which both
    categories occur, [encode_estrogen_receptor] returns a table with the
    columns "Complete TCGA ID", "ER Status", "AJCC Stage" in that order whose
    rows are those of the input, row by row, with the ER status replaced by a
    code that is 1 exactly when the status was "Negative" and 0 exactly when
    it was "Positive". *)
Theorem encode_estrogen_receptor_correct (clinical_data : DataFrame) :
  clinical_table clinical_data ->
  In NEGATIVE (column_at 1 clinical_data) ->
  In POSITIVE (column_at 1 clinical_data) ->
  exists out,
    encode_estrogen_receptor clinical_data = Ok out /\
    columns out = [CStr "Complete TCGA ID"; CStr "ER Status"; CStr "AJCC Stage"] /\
    Forall2 (fun r r' =>
               fst r' = fst r /\
               exists id er stage code,
                 snd r = [id; er; stage] /\ snd r' = [id; code; stage] /\
                 (code = CInt 1 <-> er = CStr "Negative") /\
                 (code = CInt 0 <-> er = CStr "Positive"))
            (rows clinical_data) (rows out).
Proof.
  destruct clinical_data as [cols rs]. intros [Hcols Hrows] Hneg Hpos.
  simpl in Hcols, Hrows. subst cols.
  pose proof (encode_on_table rs Hrows) as Henc. cbv zeta in Henc.
  unfold NEGATIVE, POSITIVE in Henc, Hneg, Hpos.
  apply has_label_In in Hneg, Hpos. rewrite Hneg, Hpos in Henc. simpl in Henc.
  eexists. split; [exact Henc|]. split; [reflexivity|].
  simpl. clear Henc Hneg Hpos.
  induction rs as [|r rs IH]; simpl; constructor.
  - split; [reflexivity|].
    destruct (Hrows r) as (id & er & st & Heq & Her & _); [simpl; auto|].
    destruct r as [l cs]. simpl in Heq. subst cs.
    exists id, er, st. eexists. split; [reflexivity|].
    split; [reflexivity|].
    destruct Her as [-> | ->]; simpl; split; split; intros H;
      try reflexivity; try discriminate H.
  - apply IH. intros r' Hr'. apply Hrows. simpl. auto.
Qed.

(** C9: on a table shaped like the clinical loader's output in which one of
    the two categories does not occur, [encode_estrogen_receptor] raises
    KeyError instead of returning a table. *)
Theorem encode_estrogen_receptor_one_category (clinical_data : DataFrame) :
  clinical_table clinical_data ->
  ~ In NEGATIVE (column_at 1 clinical_data) \/ ~ In POSITIVE (column_at 1 clinical_data) ->
  encode_estrogen_receptor clinical_data = Raise KeyError.
Proof.
  destruct clinical_data as [cols rs]. intros [Hcols Hrows] Hmiss.
  simpl in Hcols, Hrows. subst cols.
  pose proof (encode_on_table rs Hrows) as Henc. cbv zeta in Henc.
  rewrite Henc. unfold NEGATIVE, POSITIVE in *.
  destruct Hmiss as [H|H]; rewrite <- has_label_In in H;
    apply not_true_is_false in H; rewrite H; [reflexivity|].
  now rewrite andb_false_r.
Qed.

(** ** Computations over the store *)

Lemma mbind_Ok {A B} (m : M A) (k : A -> M B) (h h' : heap) (b : B) :
  mbind m k h = (h', Ok b) ->
  exists a h1, m h = (h1, Ok a) /\ k a h1 = (h', Ok b).
Proof.
  unfold mbind. destruct (m h) as [h1 [a|e]]; intros H; [eauto | discriminate].
Qed.

Lemma read_Ok (l : loc) (h h' : heap) (df : DataFrame) :
  read l h = (h', Ok df) -> h' = h /\ h !! l = Some df.
Proof.
  unfold read. destruct (h !! l); intros H; inversion H; auto.
Qed.

Lemma lift_Ok {A} (r : result A) (h h' : heap) (a : A) :
  lift r h = (h', Ok a) -> h' = h /\ r = Ok a.
Proof. unfold lift. intros H. inversion H; auto. Qed.

Lemma mbind_run {A B} (m : M A) (k : A -> M B) (h h1 : heap) (a : A) :
  m h = (h1, Ok a) -> mbind m k h = k a h1.
Proof. unfold mbind. now intros ->. Qed.

Lemma read_run (l : loc) (h : heap) (df : DataFrame) :
  h !! l = Some df -> read l h = (h, Ok df).
Proof. unfold read. now intros ->. Qed.

Tactic Notation "mbind_inv" hyp(H) "as" ident(a) ident(h1) ident(Ha) :=
  apply mbind_Ok in H; destruct H as (a & h1 & Ha & H).

(** ** Alignment of the matched pair *)

Lemma list_eqb_length {A} (eqb : A -> A -> bool) (l1 l2 : list A) :
  list_eqb eqb l1 l2 = true -> length l1 = length l2.
Proof.
  revert l2. induction l1 as [|a l1 IH]; destruct l2 as [|b l2]; simpl;
    try discriminate; auto.
  intros H. apply andb_true_iff in H. destruct H as [_ H]. f_equal. auto.
Qed.

Lemma map_fst_combine {A B} (xs : list A) (ys : list B) :
  length xs = length ys -> map fst (combine xs ys) = xs.
Proof.
  revert ys. induction xs as [|x xs IH]; destruct ys as [|y ys]; simpl;
    try discriminate; auto.
  intros H. f_equal. apply IH. lia.
Qed.

(** A table that [reindex] returns carries the target as its index. *)
Lemma reindex_index (target : list label) (df out : DataFrame) :
  reindex target df = Ok out -> index out = target.
Proof.
  unfold reindex, index.
  destruct (list_eqb cell_eqb (map fst (rows df)) target) eqn:Heq.
  - intros H. inversion H; subst out; clear H. simpl.
    rewrite map_map. simpl.
    apply list_eqb_length in Heq. rewrite length_map in Heq.
    change (fun x : label * (label * list cell) => fst x) with (@fst label (label * list cell)).
    now apply map_fst_combine.
  - destruct (has_dup _); [discriminate|].
    intros H. inversion H; subst out; clear H. simpl.
    rewrite map_map. simpl. apply map_id.
Qed.

Lemma getitem_boolean_mask (l : label) (bits : list bool) (df : DataFrame) (s : Series) :
  getitem l df = Ok s ->
  getitem l (boolean_mask bits df) = Ok (mask_select bits s).
Proof.
  unfold getitem. simpl.
  destruct (positions l (columns df)) as [|j [|j' js]]; try discriminate.
  intros H. inversion H; subst s; clear H. f_equal.
  generalize (rows df). revert bits.
  induction bits as [|b bits IH]; intros [|r rs]; simpl; try reflexivity.
  destruct b; simpl; now rewrite IH.
Qed.

(** What a successful run of the matcher went through. *)
Lemma create_inv (ge er : loc) (h h' : heap) (g e : loc) :
  create_data_structures_with_matching_sample ge er h = (h', Ok (g, e)) ->
  exists dfe ids h1 dfg names dfe1 ids1 indexed aligned,
    h !! er = Some dfe /\ getitem ID_COLUMN dfe = Ok ids /\
    for_each (to_list ids) (overwrite_matching ge) h = (h1, Ok tt) /\
    h1 !! ge = Some dfg /\ getitem NAME_COLUMN dfg = Ok names /\
    h1 !! er = Some dfe1 /\ getitem ID_COLUMN dfe1 = Ok ids1 /\
    set_index NAME_COLUMN dfg = Ok indexed /\
    let retained := boolean_mask (isin (to_list names) ids1) dfe1 in
    reindex (to_list (mask_select (isin (to_list names) ids1) ids1)) indexed = Ok aligned /\
    h' = (h1 ++ [aligned]) ++ [retained] /\
    g = length h1 /\ e = length (h1 ++ [aligned]).
Proof.
  unfold create_data_structures_with_matching_sample. intros H.
  mbind_inv H as dfe h0 Her. apply read_Ok in Her. destruct Her as [-> Her].
  mbind_inv H as ids h0 Hids. apply lift_Ok in Hids. destruct Hids as [-> Hids].
  mbind_inv H as u h1 Hloop. destruct u.
  mbind_inv H as dfg h2 Hge. apply read_Ok in Hge. destruct Hge as [-> Hge].
  mbind_inv H as names h2 Hnames. apply lift_Ok in Hnames. destruct Hnames as [-> Hnames].
  mbind_inv H as dfe1 h2 Her1. apply read_Ok in Her1. destruct Her1 as [-> Her1].
  mbind_inv H as ids1 h2 Hids1. apply lift_Ok in Hids1. destruct Hids1 as [-> Hids1].
  mbind_inv H as indexed h2 Hset. apply lift_Ok in Hset. destruct Hset as [-> Hset].
  mbind_inv H as ids' h2 Hids'. apply lift_Ok in Hids'. destruct Hids' as [-> Hids'].
  rewrite (getitem_boolean_mask _ _ _ _ Hids1) in Hids'.
  inversion Hids'; subst ids'; clear Hids'.
  mbind_inv H as aligned h2 Hre. apply lift_Ok in Hre. destruct Hre as [-> Hre].
  unfold alloc, mbind, ret in H. inversion H; subst; clear H.
  exists dfe, ids, h1, dfg, names, dfe1, ids1, indexed, aligned.
  cbv zeta. repeat (split; [assumption|]). auto.
Qed.

(** C2: in every pair of tables that the matcher returns, the row index of
    the expression table is the "Complete TCGA ID" column of the clinical
    table: same values, same order. *)
Theorem create_data_structures_aligned (ge er : loc) (h h' : heap) (g e : loc) :
  create_data_structures_with_matching_sample ge er h = (h', Ok (g, e)) ->
  exists expression clinical ids,
    h' !! g = Some expression /\ h' !! e = Some clinical /\
    getitem ID_COLUMN clinical = Ok ids /\
    index expression = to_list ids.
Proof.
  intros H. apply create_inv in H.
  destruct H as (dfe & ids & h1 & dfg & names & dfe1 & ids1 & indexed & aligned & H).
  destruct H as (_ & _ & _ & _ & _ & _ & Hids1 & _ & Hre & -> & -> & ->).
  exists aligned, (boolean_mask (isin (to_list names) ids1) dfe1),
    (mask_select (isin (to_list names) ids1) ids1).
  split; [|split; [|split]].
  - rewrite lookup_app_l by (rewrite length_app; simpl; lia).
    now rewrite list_lookup_middle.
  - now rewrite list_lookup_middle.
  - now apply getitem_boolean_mask.
  - now apply reindex_index in Hre.
Qed.

(** ** Patterns without special characters *)

Lemma re_plain_char_inv (c : ascii) :
  re_plain_char c = true ->
  re_special c = false /\ re_quant c = None /\ re_atom c = Lit c.
Proof.
  unfold re_plain_char, re_atom. intros H.
  apply andb_true_iff in H. destruct H as [H Hq].
  apply andb_true_iff in H. destruct H as [Hs Hd].
  apply negb_true_iff in Hs, Hd. rewrite Hd.
  destruct (re_quant c); [discriminate|]. auto.
Qed.

Lemma re_items_plain (cs : list ascii) (b : bool) :
  forallb re_plain_char cs = true -> re_items b cs = Ok (literal cs).
Proof.
  revert b. induction cs as [|c cs IH]; intros b H; [reflexivity|].
  simpl in H. apply andb_true_iff in H. destruct H as [Hc Hcs].
  destruct (re_plain_char_inv c Hc) as (Hs & Hq & Ha).
  simpl. rewrite Hs, Hq, Ha.
  destruct cs as [|q cs']; [reflexivity|].
  assert (Hq' : re_quant q = None).
  { simpl in Hcs. apply andb_true_iff in Hcs. destruct Hcs as [Hcq _].
    now destruct (re_plain_char_inv q Hcq) as (_ & ? & _). }
  rewrite Hq', (IH false Hcs). reflexivity.
Qed.

Lemma match_items_literal (p s : list ascii) :
  match_items (literal p) s = is_prefix p s.
Proof.
  revert s. induction p as [|c p IH]; intros s; [reflexivity|].
  destruct s as [|d s]; simpl; [reflexivity|]. now rewrite IH.
Qed.

Lemma search_items_literal (p s : list ascii) :
  search_items (literal p) s = is_infix p s.
Proof.
  induction s as [|d s IH]; simpl; rewrite match_items_literal; [reflexivity|].
  now rewrite IH.
Qed.

(** For an ID without special characters the regular-expression search is
    the substring test. *)
Lemma str_contains_plain (id : string) (s : Series) :
  re_plain id = true ->
  (forall e, In e s -> is_str (snd e) = true) ->
  str_contains (CStr id) s =
  Ok (map (fun e => match snd e with
                    | CStr v => Some (substring_of id v)
                    | _ => None
                    end) s).
Proof.
  intros Hid Hs. unfold str_contains, str_accessor.
  assert (Hacc : existsb is_str (to_list s) || forallb is_missing (to_list s) = true).
  { destruct s as [|e s]; [reflexivity|]. simpl. rewrite (Hs e) by (simpl; auto). reflexivity. }
  rewrite Hacc. cbn [bind]. unfold re_parse.
  rewrite (re_items_plain _ false Hid). cbn [bind]. f_equal.
  apply map_ext. intros e. destruct (snd e); try reflexivity.
  unfold substring_of. now rewrite search_items_literal.
Qed.

(** ** The overwrite loop of the matcher *)

Lemma mask_bits_names (j : nat) (id : string) (rs : list (label * list cell)) :
  (forall r, In r rs -> is_str (cell_at j (snd r)) = true) ->
  mask_bits (map (fun e : label * cell =>
                    match snd e with
                    | CStr v => Some (substring_of id v)
                    | _ => None
                    end)
                 (map (fun r => (fst r, cell_at j (snd r))) rs))
  = Ok (map (name_test j id) rs).
Proof.
  induction rs as [|r rs IH]; intros H; [reflexivity|].
  simpl. pose proof (H r (or_introl eq_refl)) as Hr.
  unfold name_test at 1.
  destruct (cell_at j (snd r)); try discriminate.
  rewrite IH by (intros; apply H; simpl; auto). reflexivity.
Qed.

Lemma assign_rows_names (j : nat) (id : string) (rs : list (label * list cell)) :
  assign_rows j (CStr id) (map (name_test j id) rs) rs = map (overwrite_row j id) rs.
Proof.
  induction rs as [|r rs IH]; [reflexivity|].
  simpl. rewrite IH. f_equal.
  unfold name_test, overwrite_row.
  destruct (cell_at j (snd r)); reflexivity.
Qed.

(** One pass of the loop for an ID without special characters. *)
Lemma overwrite_matching_plain (h : heap) (ge : loc) (df : DataFrame) (j : nat) (id : string) :
  h !! ge = Some df ->
  positions NAME_COLUMN (columns df) = [j] ->
  (forall r, In r (rows df) -> is_str (cell_at j (snd r)) = true) ->
  re_plain id = true ->
  overwrite_matching ge (CStr id) h = (<[ge := overwrite_frame j df id]> h, Ok tt).
Proof.
  intros Hge Hpos Hstr Hid. unfold overwrite_matching.
  rewrite (mbind_run _ _ _ _ _ (read_run _ _ _ Hge)).
  unfold getitem. rewrite Hpos. unfold mbind at 1, lift at 1.
  rewrite str_contains_plain; [|assumption|].
  2:{ intros e He. apply in_map_iff in He. destruct He as (r & <- & Hr). now apply Hstr. }
  unfold mbind at 1, lift at 1.
  unfold loc_assign. rewrite mask_bits_names by assumption. cbn [bind].
  rewrite Hpos, assign_rows_names. reflexivity.
Qed.

Lemma cell_at_insert (j : nat) (v : cell) (cs : list cell) :
  (j < length cs)%nat -> cell_at j (<[j := v]> cs) = v.
Proof.
  revert j. induction cs as [|c cs IH]; intros [|j] H; simpl in *; try lia; auto.
  apply IH. lia.
Qed.

Lemma cell_at_insert_ne (j j' : nat) (v : cell) (cs : list cell) :
  j <> j' -> cell_at j' (<[j := v]> cs) = cell_at j' cs.
Proof.
  revert j j'. induction cs as [|c cs IH]; intros [|j] [|j'] H; simpl; auto; try lia.
  apply IH. lia.
Qed.

Lemma is_str_in_range (j : nat) (cs : list cell) :
  is_str (cell_at j cs) = true -> (j < length cs)%nat.
Proof.
  intros H. destruct (Nat.lt_ge_cases j (length cs)) as [|Hge]; [assumption|].
  unfold cell_at in H. rewrite nth_overflow in H by exact Hge. discriminate.
Qed.

Lemma overwrite_row_name (j : nat) (id : string) (r : label * list cell) :
  is_str (cell_at j (snd r)) = true ->
  fst (overwrite_row j id r) = fst r /\
  cell_at j (snd (overwrite_row j id r)) = name_step (cell_at j (snd r)) id.
Proof.
  intros H. pose proof (is_str_in_range _ _ H) as Hj.
  unfold overwrite_row, name_step.
  destruct (cell_at j (snd r)) eqn:Hc; try discriminate.
  destruct (substring_of id s); simpl; [|now rewrite Hc].
  split; [reflexivity|]. now apply cell_at_insert.
Qed.

Lemma name_step_is_str (c : cell) (id : string) :
  is_str c = true -> is_str (name_step c id) = true.
Proof.
  destruct c; simpl; try discriminate. now destruct (substring_of id s).
Qed.

(** C5 (amended): the loop takes the IDs in order; for IDs without special
    characters each pass overwrites with the ID the names that contain it at
    that moment, so that every name ends as the fold of [name_step] over the
    IDs; columns and index labels stay. *)
Theorem overwrite_matching_in_order
    (ids : list string) (h : heap) (ge : loc) (df : DataFrame) (j : nat) :
  h !! ge = Some df ->
  positions NAME_COLUMN (columns df) = [j] ->
  (forall r, In r (rows df) -> is_str (cell_at j (snd r)) = true) ->
  (forall id, In id ids -> re_plain id = true) ->
  exists df',
    for_each (map CStr ids) (overwrite_matching ge) h = (<[ge := df']> h, Ok tt) /\
    columns df' = columns df /\
    Forall2 (fun r r' =>
               fst r' = fst r /\
               cell_at j (snd r') = fold_left name_step ids (cell_at j (snd r)))
            (rows df) (rows df').
Proof.
  revert h df. induction ids as [|id ids IH]; intros h df Hge Hpos Hstr Hids.
  - exists df. simpl. unfold ret. rewrite list_insert_id by exact Hge.
    repeat split. apply Forall2_same_length_lookup_2; [reflexivity|].
    intros i r r' Hr Hr'. rewrite Hr in Hr'. inversion Hr'; auto.
  - pose proof (lookup_lt_Some _ _ _ Hge) as Hlt.
    destruct (IH (<[ge := overwrite_frame j df id]> h) (overwrite_frame j df id))
      as (df' & Hrun & Hcols & Hrows).
    + now apply list_lookup_insert_eq.
    + exact Hpos.
    + simpl. intros r Hr. apply in_map_iff in Hr. destruct Hr as (r0 & <- & Hr0).
      destruct (overwrite_row_name j id r0 (Hstr _ Hr0)) as [_ ->].
      apply name_step_is_str. now apply Hstr.
    + intros id' Hid'. apply Hids. simpl. auto.
    + exists df'. split; [|split; [exact Hcols|]].
      * simpl. unfold mbind at 1.
        rewrite (overwrite_matching_plain h ge df j id Hge Hpos Hstr)
          by (apply Hids; simpl; auto).
        rewrite Hrun. now rewrite list_insert_insert_eq.
      * simpl in Hrows. clear Hrun IH Hge Hlt. revert Hrows Hstr.
        generalize (rows df'). induction (rows df) as [|r rs IHr];
          intros rs' Hrows Hstr; simpl in Hrows; inversion Hrows; subst;
          constructor.
        -- destruct (overwrite_row_name j id r (Hstr r (or_introl eq_refl))) as [Hf Hc].
           destruct H1 as [H1 H2]. simpl. rewrite H1, H2, Hf, Hc. auto.
        -- apply IHr; [assumption|]. intros r0 Hr0. apply Hstr. simpl. auto.
Qed.

(** ** What the functions do to the tables they receive *)

Lemma same_but_names_refl (df : DataFrame) : same_but_names df df.
Proof.
  split; [reflexivity|].
  induction (rows df) as [|r rs IH]; constructor; auto.
Qed.

Lemma same_but_names_trans (a b c : DataFrame) :
  same_but_names a b -> same_but_names b c -> same_but_names a c.
Proof.
  intros [Hab Rab] [Hbc Rbc]. split; [congruence|].
  rewrite Hab in Rbc. clear Hab Hbc.
  revert Rab Rbc. generalize (rows a) (rows b) (rows c).
  intros ra rb. revert ra. induction rb as [|y rb IH]; intros ra rc Rab Rbc;
    inversion Rab as [|x ? ? ? Hxy Rab']; subst;
    inversion Rbc as [|? ? z ? Hyz Rbc']; subst; constructor.
  - destruct Hxy as (F1 & L1 & C1), Hyz as (F2 & L2 & C2).
    repeat split; try congruence.
    intros j Hj. rewrite C2, C1 by assumption. reflexivity.
  - now apply IH.
Qed.

Lemma heap_frame_refl (ge : loc) (h : heap) : heap_frame ge h h.
Proof.
  split; [auto|]. intros df Hdf. exists df. split; [assumption|].
  apply same_but_names_refl.
Qed.

Lemma heap_frame_trans (ge : loc) (h1 h2 h3 : heap) :
  heap_frame ge h1 h2 -> heap_frame ge h2 h3 -> heap_frame ge h1 h3.
Proof.
  intros [O12 G12] [O23 G23]. split.
  - intros l df Hl Hdf. apply O23; [assumption|]. now apply O12.
  - intros df Hdf. destruct (G12 _ Hdf) as (df2 & H2 & S12).
    destruct (G23 _ H2) as (df3 & H3 & S23).
    exists df3. split; [assumption|]. eapply same_but_names_trans; eauto.
Qed.

Lemma frames_ret {A} (ge : loc) (a : A) : frames ge (ret a).
Proof. intros h h' r H. inversion H. apply heap_frame_refl. Qed.

Lemma frames_lift {A} (ge : loc) (x : result A) : frames ge (lift x).
Proof. intros h h' r H. inversion H. apply heap_frame_refl. Qed.

Lemma frames_read (ge l : loc) : frames ge (read l).
Proof.
  intros h h' r H. unfold read in H.
  destruct (h !! l); inversion H; apply heap_frame_refl.
Qed.

Lemma frames_alloc (ge : loc) (df : DataFrame) : frames ge (alloc df).
Proof.
  intros h h' r H. inversion H; subst. split.
  - intros l d _ Hl. now apply lookup_app_l_Some.
  - intros d Hd. exists d. split; [now apply lookup_app_l_Some|].
    apply same_but_names_refl.
Qed.

Lemma frames_mbind {A B} (ge : loc) (m : M A) (k : A -> M B) :
  frames ge m -> (forall a, frames ge (k a)) -> frames ge (mbind m k).
Proof.
  intros Hm Hk h h' r H. unfold mbind in H.
  destruct (m h) as [h1 [a|e]] eqn:Hmh.
  - eapply heap_frame_trans; [eapply Hm; eauto | eapply Hk; eauto].
  - inversion H; subst. eapply Hm; eauto.
Qed.

Lemma assign_rows_same (cols : list label) (j : nat) (v : cell) (bits : list bool)
    (rs : list (label * list cell)) :
  cell_at j cols = NAME_COLUMN ->
  Forall2 (fun r r' =>
             fst r' = fst r /\
             length (snd r') = length (snd r) /\
             forall j', cell_at j' cols <> NAME_COLUMN ->
                        cell_at j' (snd r') = cell_at j' (snd r))
          rs (assign_rows j v bits rs).
Proof.
  intros Hj. revert bits. induction rs as [|r rs IH]; intros bits.
  - destruct bits; constructor.
  - destruct bits as [|b bits]; simpl.
    + pose proof (same_but_names_refl {| columns := cols; rows := r :: rs |}) as [_ H].
      exact H.
    + constructor; [|apply IH].
      destruct b; simpl; [|auto].
      split; [reflexivity|]. split; [apply length_insert|].
      intros j' Hj'. apply cell_at_insert_ne. congruence.
Qed.

Lemma loc_assign_same (bits : list (option bool)) (v : cell) (df df' : DataFrame) :
  loc_assign bits NAME_COLUMN v df = Ok df' -> same_but_names df df'.
Proof.
  unfold loc_assign. intros H. bind_inv H.
  destruct (positions NAME_COLUMN (columns df)) as [|j [|j' js]] eqn:Hp;
    try discriminate.
  inversion H; subst df'; clear H. split; [reflexivity|]. simpl.
  apply assign_rows_same. apply (positions_cell_at "NAME"). fold NAME_COLUMN.
  rewrite Hp. simpl. auto.
Qed.

Lemma frames_overwrite_matching (ge : loc) (id : cell) :
  frames ge (overwrite_matching ge id).
Proof.
  intros h h' r H. unfold overwrite_matching, mbind, read, lift, write in H.
  destruct (h !! ge) as [df|] eqn:Hge; [|inversion H; apply heap_frame_refl].
  destruct (getitem NAME_COLUMN df) as [names|e]; [|inversion H; apply heap_frame_refl].
  destruct (str_contains id names) as [bits|e]; [|inversion H; apply heap_frame_refl].
  destruct (loc_assign bits NAME_COLUMN id df) as [df'|e] eqn:Hassign;
    [|inversion H; apply heap_frame_refl].
  inversion H; subst; clear H. split.
  - intros l d Hl Hd. now rewrite list_lookup_insert_ne.
  - intros d Hd. rewrite Hge in Hd. inversion Hd; subst d.
    exists df'. split; [|eapply loc_assign_same; eauto].
    apply list_lookup_insert_eq. eapply lookup_lt_Some; eauto.
Qed.

Lemma frames_for_each {A} (ge : loc) (xs : list A) (body : A -> M unit) :
  (forall x, frames ge (body x)) -> frames ge (for_each xs body).
Proof.
  intros Hbody. induction xs as [|x xs IH]; simpl.
  - apply frames_ret.
  - apply frames_mbind; auto.
Qed.

Lemma frames_create (ge er : loc) :
  frames ge (create_data_structures_with_matching_sample ge er).
Proof.
  unfold create_data_structures_with_matching_sample.
  repeat first
    [ apply frames_ret | apply frames_lift | apply frames_read | apply frames_alloc
    | apply frames_for_each; intros; apply frames_overwrite_matching
    | apply frames_mbind; [|intros] ].
Qed.

(** ** Duplicate names at the reordering step *)

Lemma has_label_positions (s : string) (ls : list label) :
  positions (CStr s) ls <> [] -> has_label (CStr s) ls = true.
Proof.
  intros H. destruct (positions (CStr s) ls) as [|j js] eqn:Hp; [congruence|].
  apply has_label_In.
  rewrite <- (positions_cell_at s ls j) by (rewrite Hp; simpl; auto).
  assert (Hin : In j (positions (CStr s) ls)) by (rewrite Hp; simpl; auto).
  apply positions_from_In in Hin. destruct Hin as [_ Hin].
  rewrite Nat.sub_0_r in Hin.
  apply cell_at_In. apply is_str_in_range.
  apply cell_eqb_str_r in Hin. now rewrite Hin.
Qed.

Lemma set_index_Ok (s : string) (df : DataFrame) (names : Series) :
  getitem (CStr s) df = Ok names ->
  exists out, set_index (CStr s) df = Ok out /\ index out = to_list names.
Proof.
  intros Hget. unfold set_index. rewrite Hget. cbn [bind].
  unfold drop. rewrite has_label_positions.
  2:{ unfold getitem in Hget. destruct (positions (CStr s) (columns df)); discriminate. }
  cbn [bind]. eexists. split; [reflexivity|].
  unfold index, to_list. simpl. rewrite map_map. simpl.
  unfold getitem in Hget.
  destruct (positions (CStr s) (columns df)) as [|j [|j' js]]; try discriminate.
  inversion Hget; subst names; clear Hget.
  induction (rows df) as [|r rs IH]; simpl; [reflexivity|]. now rewrite IH.
Qed.

(** C10 (amended): when the loop has left two expression rows with the same
    name, the matcher raises ValueError at the reordering step, unless the
    sequence of names equals the sequence of retained clinical IDs, in which
    case it returns the pair. *)
Theorem create_data_structures_duplicate_names
    (ge er : loc) (h h1 : heap) (dfe dfg dfe1 : DataFrame) (ids names ids1 : Series) :
  h !! er = Some dfe -> getitem ID_COLUMN dfe = Ok ids ->
  for_each (to_list ids) (overwrite_matching ge) h = (h1, Ok tt) ->
  h1 !! ge = Some dfg -> getitem NAME_COLUMN dfg = Ok names ->
  h1 !! er = Some dfe1 -> getitem ID_COLUMN dfe1 = Ok ids1 ->
  has_dup (to_list names) = true ->
  let retained := to_list (mask_select (isin (to_list names) ids1) ids1) in
  (list_eqb cell_eqb (to_list names) retained = false ->
   create_data_structures_with_matching_sample ge er h = (h1, Raise ValueError)) /\
  (list_eqb cell_eqb (to_list names) retained = true ->
   exists h' g e,
     create_data_structures_with_matching_sample ge er h = (h', Ok (g, e))).
Proof.
  intros Her Hids Hloop Hge Hnames Her1 Hids1 Hdup retained.
  destruct (set_index_Ok "NAME" dfg names Hnames) as (indexed & Hset & Hindex).
  assert (Hrun : create_data_structures_with_matching_sample ge er h =
                 (run aligned := lift (reindex retained indexed) in
                  run g := alloc aligned in
                  run e := alloc (boolean_mask (isin (to_list names) ids1) dfe1) in
                  ret (g, e)) h1).
  { unfold create_data_structures_with_matching_sample.
    rewrite (mbind_run _ _ _ _ _ (read_run _ _ _ Her)).
    unfold mbind at 1, lift at 1. rewrite Hids.
    rewrite (mbind_run _ _ _ _ _ Hloop).
    rewrite (mbind_run _ _ _ _ _ (read_run _ _ _ Hge)).
    unfold mbind at 1, lift at 1. rewrite Hnames.
    rewrite (mbind_run _ _ _ _ _ (read_run _ _ _ Her1)).
    unfold mbind at 1, lift at 1. rewrite Hids1.
    unfold mbind at 1, lift at 1. fold NAME_COLUMN in Hset. rewrite Hset.
    unfold mbind at 1, lift at 1.
    rewrite (getitem_boolean_mask _ _ _ _ Hids1). reflexivity. }
  rewrite Hrun. unfold reindex. rewrite Hindex. split; intros Heq; rewrite Heq.
  - rewrite Hdup. reflexivity.
  - unfold mbind, lift, alloc, ret. eauto.
Qed.

(** ** The standard deviation *)

Lemma strided_sum_in_order (zero : float) :
  zero = 0%float \/ zero = (-0)%float -> sums_in_order (strided_sum zero).
Proof. intros Hz. exists zero. split; [exact Hz|]. intros xs _. reflexivity. Qed.


(** From 8 values on the order matters: ten times 0.1 add up to 1 pairwise
    and to the float just below 1 left to right. *)
Lemma sum_orders_differ :
  contiguous_sum 0 (repeat 0x1.999999999999ap-4%float 10) = 1%float /\
  PrimFloat.eqb (strided_sum 0 (repeat 0x1.999999999999ap-4%float 10)) 1 = false.
Proof. split; vm_compute; reflexivity. Qed.










Lemma std_columns_spec (np_sum : list float -> float)
    (df : DataFrame) (js : list nat) (s : Series) :
  std_columns np_sum df js = Ok s ->
  Forall2 (fun j e =>
             exists xs, numeric_column (column_at j df) = Ok xs /\
                        e = (cell_at j (columns df), CFloat (nanstd np_sum 1 xs)))
          js s.
Proof.
  revert s. induction js as [|j js IH]; simpl; intros s H.
  - inversion H. constructor.
  - bind_inv H. bind_inv H. inversion H; subst s; clear H.
    constructor; [eauto | auto].
Qed.




(** * Instances on the example tables *)

Lemma load_gene_expression_data_complete_witness :
  load_gene_expression_data sample_matrix = Ok sample_expression /\
  is_missing (cell_at 1 [CStr "TCGA-A1-01-sample"; CFloat 2; CFloat 1]) = false.
Proof.
  split; [reflexivity|].
  apply (load_gene_expression_data_complete sample_matrix sample_expression)
    with (r := (CInt 0, [CStr "TCGA-A1-01-sample"; CFloat 2; CFloat 1])).
  - repeat constructor.
  - reflexivity.
  - simpl. auto.
  - simpl. lia.
Defined.

Lemma load_clinical_data_rows_witness :
  exists out,
    load_clinical_data sample_sheet = Ok out /\
    columns out = [ID_COLUMN; ER_COLUMN; STAGE_COLUMN] /\
    forall r, In r (rows out) ->
      exists id er stage,
        snd r = [id; er; stage] /\
        (er = CStr "Negative" \/ er = CStr "Positive") /\
        is_missing id = false /\ is_missing er = false /\ is_missing stage = false.
Proof.
  apply (load_clinical_data_rows sample_sheet 1 2 3); reflexivity.
Defined.

Lemma category_filter_idempotent_witness :
  load_clinical_data sample_sheet = Ok sample_clinical /\
  category_filter sample_clinical = Ok sample_clinical.
Proof.
  split; [reflexivity|].
  apply (category_filter_idempotent sample_sheet sample_clinical). reflexivity.
Defined.

Lemma encode_estrogen_receptor_correct_witness :
  exists out,
    encode_estrogen_receptor sample_clinical = Ok out /\
    columns out = [CStr "Complete TCGA ID"; CStr "ER Status"; CStr "AJCC Stage"] /\
    Forall2 (fun r r' =>
               fst r' = fst r /\
               exists id er stage code,
                 snd r = [id; er; stage] /\ snd r' = [id; code; stage] /\
                 (code = CInt 1 <-> er = CStr "Negative") /\
                 (code = CInt 0 <-> er = CStr "Positive"))
            (rows sample_clinical) (rows out).
Proof.
  apply (encode_estrogen_receptor_correct sample_clinical).
  - split; [reflexivity|]. intros r Hr. simpl in Hr.
    destruct Hr as [<-|[<-|[]]]; do 3 eexists; simpl; repeat split; auto.
  - simpl. auto.
  - simpl. auto.
Defined.

Lemma encode_estrogen_receptor_one_category_witness :
  encode_estrogen_receptor negative_only = Raise KeyError.
Proof.
  apply (encode_estrogen_receptor_one_category negative_only).
  - split; [reflexivity|]. intros r Hr. simpl in Hr.
    destruct Hr as [<-|[]]; do 3 eexists; simpl; repeat split; auto.
  - right. simpl. intros [H|[]]. discriminate H.
Defined.

Lemma create_data_structures_aligned_witness :
  exists expression clinical ids,
    fst (create_data_structures_with_matching_sample 0 1 sample_heap) !! 2 = Some expression /\
    fst (create_data_structures_with_matching_sample 0 1 sample_heap) !! 3 = Some clinical /\
    getitem ID_COLUMN clinical = Ok ids /\
    index expression = to_list ids.
Proof.
  apply (create_data_structures_aligned 0 1 sample_heap _ 2 3).
  vm_compute. reflexivity.
Defined.

(** The example of the specification: the expression index is
    "TCGA-A1-01", "TCGA-A2-02" in that order. *)
Example matching_example :
  exists h' expression,
    create_data_structures_with_matching_sample 0 1 sample_heap = (h', Ok (2, 3)) /\
    h' !! 2 = Some expression /\
    index expression = [CStr "TCGA-A1-01"; CStr "TCGA-A2-02"].
Proof. do 2 eexists. vm_compute. repeat split. Qed.

Lemma overwrite_matching_in_order_witness :
  exists df',
    for_each (map CStr ["TCGA-A1-01"; "TCGA-A2-02"]) (overwrite_matching 0) sample_heap
    = (<[0 := df']> sample_heap, Ok tt) /\
    columns df' = columns sample_expression /\
    Forall2 (fun r r' =>
               fst r' = fst r /\
               cell_at 0 (snd r') =
               fold_left name_step ["TCGA-A1-01"; "TCGA-A2-02"] (cell_at 0 (snd r)))
            (rows sample_expression) (rows df').
Proof.
  apply (overwrite_matching_in_order ["TCGA-A1-01"; "TCGA-A2-02"] sample_heap 0
           sample_expression 0).
  - reflexivity.
  - reflexivity.
  - intros r Hr. simpl in Hr. destruct Hr as [<-|[<-|[]]]; reflexivity.
  - intros id Hid. simpl in Hid. destruct Hid as [<-|[<-|[]]]; reflexivity.
Defined.

(** Against C5 as stated.  First, the ID "A+B" is read as a pattern: the name
    "A+B-01" contains it as a substring and is not overwritten.  Second, the
    name "ABC-1" contains both IDs "ABC" and "BC-1"; the first pass makes it
    "ABC", which the second ID no longer matches, so the first matching ID
    stays. *)
Lemma overwrite_matching_counterexample :
  (substring_of "A+B" "A+B-01" = true /\
   create_data_structures_with_matching_sample 0 1
     [expression_named ["A+B-01"]; clinical_with ["A+B"]]
   = ([expression_named ["A+B-01"]; clinical_with ["A+B"];
       {| columns := [CStr "g1"]; rows := [] |}; clinical_with []],
      Ok (2, 3))) /\
  (substring_of "ABC" "ABC-1" = true /\ substring_of "BC-1" "ABC-1" = true /\
   fst (create_data_structures_with_matching_sample 0 1
          [expression_named ["ABC-1"]; clinical_with ["ABC"; "BC-1"]]) !! 0
   = Some (expression_named ["ABC"])).
Proof. vm_compute. repeat split. Qed.

(** Against C6 as stated: after the call the expression table the caller
    passed holds the overwritten names. *)
Lemma matcher_mutates_counterexample :
  sample_heap !! 0 = Some sample_expression /\
  fst (create_data_structures_with_matching_sample 0 1 sample_heap) !! 0
  = Some {| columns := [CStr "NAME"; CStr "g1"; CStr "g3"];
            rows := [(CInt 0, [CStr "TCGA-A1-01"; CFloat 2; CFloat 1]);
                     (CInt 1, [CStr "TCGA-A2-02"; CFloat 4; CFloat 7])] |} /\
  fst (create_data_structures_with_matching_sample 0 1 sample_heap) !! 0
  <> sample_heap !! 0.
Proof.
  split; [reflexivity|]. split; [vm_compute; reflexivity|].
  vm_compute. intros H. discriminate H.
Qed.


(** Against C10 as stated: the clinical table lists the ID "A" twice, both
    expression rows are normalized to "A", and the matcher returns a pair. *)
Lemma duplicate_names_counterexample :
  create_data_structures_with_matching_sample 0 1
    [expression_named ["A-1"; "A-2"]; clinical_with ["A"; "A"]]
  = ([expression_named ["A"; "A"]; clinical_with ["A"; "A"];
      {| columns := [CStr "g1"];
         rows := [(CStr "A", [CFloat 1]); (CStr "A", [CFloat 1])] |};
      clinical_with ["A"; "A"]],
     Ok (2, 3)).
Proof. vm_compute. reflexivity. Qed.

Lemma create_data_structures_duplicate_names_witness :
  create_data_structures_with_matching_sample 0 1
    [expression_named ["A-1"; "A-2"]; clinical_with ["A"]]
  = ([expression_named ["A"; "A"]; clinical_with ["A"]], Raise ValueError).
Proof.
  apply (create_data_structures_duplicate_names 0 1
           [expression_named ["A-1"; "A-2"]; clinical_with ["A"]]
           [expression_named ["A"; "A"]; clinical_with ["A"]]
           (clinical_with ["A"]) (expression_named ["A"; "A"]) (clinical_with ["A"])
           [(CInt 0, CStr "A")]
           [(CInt 0, CStr "A"); (CInt 1, CStr "A")]
           [(CInt 0, CStr "A")]);
    reflexivity.
Defined.

(** * Further properties of the program *)

(** ** The table the expression loader builds *)

Lemma number_from_seq (f : nat -> label * list cell) (a n : nat) :
  number_from a (map f (seq a n)) =
  map (fun k => (CInt (Z.of_nat k), fst (f k) :: snd (f k))) (seq a n).
Proof.
  revert a. induction n as [|n IH]; intros a; simpl; [reflexivity|].
  now rewrite IH.
Qed.

Lemma rename_absent (old new : string) (ls : list label) :
  has_label (CStr old) ls = false ->
  map (fun c => if cell_eqb c (CStr old) then CStr new else c) ls = ls.
Proof.
  induction ls as [|c ls IH]; simpl; intros H; [reflexivity|].
  apply orb_false_iff in H. destruct H as [Hc Hls].
  rewrite IH by assumption. f_equal.
  destruct (cell_eqb c (CStr old)) eqn:Heq; [|reflexivity].
  apply cell_eqb_str_r in Heq. subst c.
  simpl in Hc. now rewrite String.eqb_refl in Hc.
Qed.

(** The rows of the transposed table, sample by sample: the sample label,
    then the value of every retained gene for that sample, stored under the
    common dtype of the retained genes. *)
Lemma transposed_rows (parsed : DataFrame) :
  number_from 0 (rows (transpose (dropna parsed))) =
  map (fun k => (CInt (Z.of_nat k),
                 cell_at k (columns parsed)
                 :: map (fun g => astype (common_dtype (dropna parsed)) (cell_at k (snd g)))
                        (rows (dropna parsed))))
      (seq 0 (length (columns parsed))).
Proof.
  unfold transpose. cbn [rows columns].
  change (columns (dropna parsed)) with (columns parsed).
  rewrite (number_from_seq
             (fun j => (cell_at j (columns parsed),
                        map (astype (common_dtype (dropna parsed)))
                            (column_at j (dropna parsed))))
             0 (length (columns parsed))).
  apply map_ext. intros k. cbn [fst snd]. unfold column_at. now rewrite map_map.
Qed.

(** X1: on a parsed matrix whose columns are typed, when no retained gene is
    labelled "index", the expression loader returns the transposed matrix: the columns are "NAME" followed by the
    labels of the genes without a missing value, in the order of the file;
    there is one row per sample, numbered from 0, holding the sample label
    under "NAME" and then the value of each retained gene for that sample,
    as a float when the retained genes mix integers and floats. *)
Theorem load_gene_expression_data_transposed (parsed : DataFrame) :
  well_typed parsed = true ->
  has_label (CStr "index") (index (dropna parsed)) = false ->
  load_gene_expression_data parsed =
  Ok {| columns := CStr "NAME" :: index (dropna parsed);
        rows := map (fun k => (CInt (Z.of_nat k),
                               cell_at k (columns parsed)
                               :: map (fun g => astype (common_dtype (dropna parsed))
                                                       (cell_at k (snd g)))
                                      (rows (dropna parsed))))
                    (seq 0 (length (columns parsed))) |}.
Proof.
  intros _ Hindex. unfold load_gene_expression_data, reset_index.
  change (columns (transpose (dropna parsed))) with (index (dropna parsed)).
  rewrite Hindex. cbn [bind]. rewrite Hindex. cbn [bind].
  unfold rename. cbn [columns rows]. rewrite transposed_rows.
  cbn [map]. rewrite (rename_absent "index" "NAME") by assumption.
  reflexivity.
Qed.

(** X2: the expression loader raises nothing but ValueError, and raises it
    exactly when the retained genes include one labelled "index" and one
    labelled "level_0". *)
Theorem load_gene_expression_data_raises (parsed : DataFrame) (e : exn) :
  load_gene_expression_data parsed = Raise e <->
  e = ValueError /\
  has_label (CStr "index") (index (dropna parsed)) = true /\
  has_label (CStr "level_0") (index (dropna parsed)) = true.
Proof.
  unfold load_gene_expression_data, reset_index.
  change (columns (transpose (dropna parsed))) with (index (dropna parsed)).
  destruct (has_label (CStr "index") (index (dropna parsed))) eqn:Hi.
  - destruct (has_label (CStr "level_0") (index (dropna parsed))) eqn:Hl; cbn [bind].
    + split; [intros H; inversion H; auto | intros (-> & _ & _); reflexivity].
    + split; [discriminate | intros (_ & _ & H); discriminate H].
  - rewrite Hi. cbn [bind].
    split; [discriminate | intros (_ & H & _); discriminate H].
Qed.

(** X3: on a parsed matrix whose columns are typed, when a retained gene is
    labelled "index" (and none "level_0"), the loader succeeds but the sample labels end up in a column called
    "level_0", while it is the gene's column that is renamed to "NAME"; the
    cells are those of the transposed matrix, as in X1. *)
Theorem load_gene_expression_data_gene_called_index (parsed : DataFrame) :
  well_typed parsed = true ->
  has_label (CStr "index") (index (dropna parsed)) = true ->
  has_label (CStr "level_0") (index (dropna parsed)) = false ->
  load_gene_expression_data parsed =
  Ok {| columns := CStr "level_0"
                   :: map (fun c => if cell_eqb c (CStr "index") then CStr "NAME" else c)
                          (index (dropna parsed));
        rows := map (fun k => (CInt (Z.of_nat k),
                               cell_at k (columns parsed)
                               :: map (fun g => astype (common_dtype (dropna parsed))
                                                       (cell_at k (snd g)))
                                      (rows (dropna parsed))))
                    (seq 0 (length (columns parsed))) |}.
Proof.
  intros _ Hindex Hlevel. unfold load_gene_expression_data, reset_index.
  change (columns (transpose (dropna parsed))) with (index (dropna parsed)).
  rewrite Hindex, Hlevel. cbn [bind].
  unfold rename. cbn [columns rows]. rewrite transposed_rows. reflexivity.
Qed.

(** ** Errors and rows of the clinical loader *)

Lemma positions_absent (s : string) (ls : list label) :
  has_label (CStr s) ls = false -> positions (CStr s) ls = [].
Proof.
  intros H. destruct (positions (CStr s) ls) as [|j js] eqn:Hp; [reflexivity|].
  rewrite has_label_positions in H; [discriminate | now rewrite Hp].
Qed.

(** X4: when the parsed sheet lacks one of the columns "Complete TCGA ID",
    "ER Status" and "AJCC Stage", the clinical loader raises KeyError. *)
Theorem load_clinical_data_missing_column (parsed : DataFrame) (l : label) :
  In l [ID_COLUMN; ER_COLUMN; STAGE_COLUMN] ->
  has_label l (columns parsed) = false ->
  load_clinical_data parsed = Raise KeyError.
Proof.
  intros Hl Habsent. unfold load_clinical_data, getitems. simpl.
  simpl in Hl. destruct Hl as [<-|[<-|[<-|[]]]];
    apply positions_absent in Habsent; fold ID_COLUMN ER_COLUMN STAGE_COLUMN in *.
  - now rewrite Habsent.
  - rewrite Habsent.
    destruct (positions ID_COLUMN (columns parsed)); reflexivity.
  - rewrite Habsent.
    destruct (positions ID_COLUMN (columns parsed));
      destruct (positions ER_COLUMN (columns parsed)); reflexivity.
Qed.

Lemma filter_map_commute {A B} (p : B -> bool) (f : A -> B) (xs : list A) :
  List.filter p (map f xs) = map f (List.filter (fun x => p (f x)) xs).
Proof.
  induction xs as [|x xs IH]; simpl; [reflexivity|].
  destruct (p (f x)); simpl; now rewrite IH.
Qed.

Lemma filter_twice {A} (p q : A -> bool) (xs : list A) :
  List.filter p (List.filter q xs) = List.filter (fun x => q x && p x) xs.
Proof.
  induction xs as [|x xs IH]; simpl; [reflexivity|].
  destruct (q x); simpl; [destruct (p x)|]; now rewrite IH.
Qed.

(** X5: when the parsed sheet has the three columns, the clinical loader
    returns the rows whose sample ID and stage are present and whose ER
    status is "Negative" or "Positive", in the order of the sheet, each
    under the row label it had in the sheet (the index is not renumbered)
    and reduced to the three fields; the other columns play no part. *)
Theorem load_clinical_data_kept_rows (parsed : DataFrame) (i j k : nat) :
  positions ID_COLUMN (columns parsed) = [i] ->
  positions ER_COLUMN (columns parsed) = [j] ->
  positions STAGE_COLUMN (columns parsed) = [k] ->
  load_clinical_data parsed =
  Ok {| columns := [ID_COLUMN; ER_COLUMN; STAGE_COLUMN];
        rows := map (selected_row i j k) (List.filter (kept_row i j k) (rows parsed)) |}.
Proof.
  intros Hi Hj Hk. unfold load_clinical_data.
  unfold ID_COLUMN, ER_COLUMN, STAGE_COLUMN in *.
  rewrite (getitems_three parsed _ _ _ i j k Hi Hj Hk). cbn [bind].
  rewrite (category_filter_Ok _ 1) by reflexivity.
  unfold filtered. cbn [columns rows]. do 2 f_equal.
  rewrite filter_twice.
  change (fun r : label * list cell =>
            (fst r, [cell_at i (snd r); cell_at j (snd r); cell_at k (snd r)]))
    with (selected_row i j k).
  rewrite filter_map_commute. f_equal.
  apply filter_ext. intros r.
  unfold complete_row, er_ok, kept_row, selected_row, NEGATIVE, POSITIVE. simpl.
  rewrite !andb_true_r, orb_false_r.
  destruct (cell_at j (snd r)) as [s| | |]; simpl;
    try (rewrite !andb_false_r; reflexivity).
  destruct (is_missing (cell_at i (snd r))), (is_missing (cell_at k (snd r)));
    simpl; reflexivity.
Qed.

(** ** The encoder on a table without the category "Positive" *)

Lemma insert_level_In (c x : cell) (ls : list cell) :
  In c (insert_level x ls) -> c = x \/ In c ls.
Proof.
  induction ls as [|l ls IH]; simpl.
  - intros [<-|[]]. auto.
  - destruct (cell_eqb x l); [simpl; auto|].
    destruct (cell_ltb x l); simpl; [intuition auto|].
    intros [<-|H]; [auto|]. destruct (IH H); auto.
Qed.

Lemma levels_In (c : cell) (vs : list cell) : In c (levels vs) -> In c vs.
Proof.
  unfold levels. induction vs as [|v vs IH]; simpl; [auto|].
  destruct (is_missing v); simpl; [auto|].
  intros H. apply insert_level_In in H. destruct H as [->|H]; auto.
Qed.

Lemma has_label_filter (l : label) (p : label -> bool) (ls : list label) :
  has_label l ls = false -> has_label l (List.filter p ls) = false.
Proof.
  unfold has_label. induction ls as [|c ls IH]; simpl; [auto|].
  intros H. apply orb_false_iff in H. destruct H as [Hc Hls].
  destruct (p c); simpl; [rewrite Hc|]; auto.
Qed.

Lemma encode_without_positive (rs : list (label * list cell)) :
  has_label POSITIVE (levels (map (fun r => cell_at 1 (snd r)) rs)) = false ->
  encode_estrogen_receptor
    {| columns := [ID_COLUMN; ER_COLUMN; STAGE_COLUMN]; rows := rs |}
  = Raise KeyError.
Proof.
  intros Hpos. unfold encode_estrogen_receptor.
  change (getitem ER_COLUMN {| columns := [ID_COLUMN; ER_COLUMN; STAGE_COLUMN]; rows := rs |})
    with (Ok (map (fun r : label * list cell => (fst r, cell_at 1 (snd r))) rs)).
  cbn [bind]. unfold get_dummies, to_list. rewrite map_map. cbn [snd].
  set (L := levels _) in *.
  unfold concat_axis1, drop. cbn [columns rows].
  assert (Her : has_label ER_COLUMN (L ++ [ID_COLUMN; ER_COLUMN; STAGE_COLUMN]) = true).
  { unfold has_label. rewrite existsb_app. apply orb_true_r. }
  rewrite Her. cbn [bind columns rows].
  assert (Hno : has_label POSITIVE
                  (List.filter (fun k => negb (cell_eqb k ER_COLUMN))
                               (L ++ [ID_COLUMN; ER_COLUMN; STAGE_COLUMN])) = false).
  { rewrite List.filter_app. unfold has_label. rewrite existsb_app.
    apply orb_false_iff. split; [|reflexivity].
    now apply has_label_filter. }
  rewrite Hno. reflexivity.
Qed.

(** X6: the encoder cannot be applied to its own output: on the table it
    returned for a clinical table, whose ER status is now 0 or 1, it raises
    KeyError. *)
Theorem encode_estrogen_receptor_twice (clinical_data out : DataFrame) :
  clinical_table clinical_data ->
  encode_estrogen_receptor clinical_data = Ok out ->
  encode_estrogen_receptor out = Raise KeyError.
Proof.
  destruct clinical_data as [cols rs]. intros [Hcols Hrows] Henc.
  simpl in Hcols, Hrows. subst cols.
  pose proof (encode_on_table rs Hrows) as Hspec. cbv zeta in Hspec.
  rewrite Henc in Hspec.
  destruct (has_label NEGATIVE _ && has_label POSITIVE _); [|discriminate].
  inversion Hspec; subst out; clear Hspec Henc.
  apply encode_without_positive.
  destruct (has_label POSITIVE _) eqn:Hpos; [|reflexivity].
  unfold POSITIVE in Hpos. apply has_label_In, levels_In in Hpos.
  rewrite map_map in Hpos. apply in_map_iff in Hpos.
  destruct Hpos as (r & Hr & _). discriminate Hr.
Qed.

(** ** Errors of the matcher *)

Lemma overwrite_loop_without_names (ge : loc) (h : heap) (df : DataFrame) (ids : list cell) :
  h !! ge = Some df ->
  has_label NAME_COLUMN (columns df) = false ->
  for_each ids (overwrite_matching ge) h =
  (h, match ids with [] => Ok tt | _ :: _ => Raise KeyError end).
Proof.
  intros Hge Hname. destruct ids as [|id ids]; [reflexivity|].
  simpl. unfold mbind at 1. unfold overwrite_matching.
  rewrite (mbind_run _ _ _ _ _ (read_run _ _ _ Hge)).
  unfold mbind, lift, getitem. unfold NAME_COLUMN in *.
  now rewrite (positions_absent _ _ Hname).
Qed.

(** X7: when the clinical table has no column "Complete TCGA ID", or has one
    while the expression table has no column "NAME", the matcher raises
    KeyError and leaves the store as it was. *)
Theorem create_data_structures_missing_column
    (ge er : loc) (h : heap) (dfg dfe : DataFrame) :
  h !! ge = Some dfg -> h !! er = Some dfe ->
  has_label ID_COLUMN (columns dfe) = false \/
  ((exists i, positions ID_COLUMN (columns dfe) = [i]) /\
   has_label NAME_COLUMN (columns dfg) = false) ->
  create_data_structures_with_matching_sample ge er h = (h, Raise KeyError).
Proof.
  intros Hge Her Hmiss. unfold create_data_structures_with_matching_sample.
  rewrite (mbind_run _ _ _ _ _ (read_run _ _ _ Her)).
  unfold mbind at 1, lift at 1, getitem at 1.
  destruct Hmiss as [Hid | [[i Hid] Hname]].
  - unfold ID_COLUMN in *. now rewrite (positions_absent _ _ Hid).
  - rewrite Hid. unfold mbind at 1.
    rewrite (overwrite_loop_without_names ge h dfg _ Hge Hname).
    unfold to_list. destruct (rows dfe) as [|r rs]; simpl; [|reflexivity].
    rewrite (mbind_run _ _ _ _ _ (read_run _ _ _ Hge)).
    unfold mbind, lift, getitem. unfold NAME_COLUMN in *.
    now rewrite (positions_absent _ _ Hname).
Qed.

(** ** The two tables the matcher returns *)

Lemma SFeqb_sym (f1 f2 : spec_float) : SFeqb f1 f2 = SFeqb f2 f1.
Proof.
  unfold SFeqb, SFcompare.
  destruct f1 as [s1|s1| |s1 m1 e1], f2 as [s2|s2| |s2 m2 e2]; try reflexivity;
    try (destruct s1; reflexivity); try (destruct s2; reflexivity);
    try (destruct s1, s2; reflexivity).
  destruct s1, s2; try reflexivity;
    rewrite (Z.compare_antisym e1 e2); destruct (e1 ?= e2)%Z; simpl; try reflexivity;
    change (PosDef.Pos.compare_cont Eq m2 m1) with (Pos.compare m2 m1);
    change (PosDef.Pos.compare_cont Eq m1 m2) with (Pos.compare m1 m2);
    rewrite (Pos.compare_antisym m1 m2); destruct (m1 ?= m2)%positive; reflexivity.
Qed.

Lemma cell_eqb_sym (a b : cell) : cell_eqb a b = cell_eqb b a.
Proof.
  destruct a, b; simpl; try reflexivity.
  - apply String.eqb_sym.
  - apply Z.eqb_sym.
  - rewrite !FloatAxioms.eqb_spec, (SFeqb_sym (Prim2SF x)).
    now rewrite (andb_comm (PrimFloat.is_nan x)).
Qed.

Lemma isin_select (values : list cell) (s : Series) :
  mask_select (isin values s) s =
  List.filter (fun e => has_label (snd e) values) s.
Proof. unfold isin. apply (mask_select_map (fun e => has_label (snd e) values)). Qed.

Lemma getitem_rows (l : label) (df : DataFrame) (s : Series) :
  getitem l df = Ok s ->
  exists j, positions l (columns df) = [j] /\
            s = map (fun r => (fst r, cell_at j (snd r))) (rows df).
Proof.
  unfold getitem. destruct (positions l (columns df)) as [|j [|j' js]]; try discriminate.
  intros H. inversion H. eauto.
Qed.

(** X8: the clinical table that the matcher returns consists of the rows of
    the clinical table it received whose sample ID is one of the names the
    expression table holds after the loop; they come in their order, under
    their labels and with all their columns. *)
Theorem create_data_structures_clinical_rows
    (ge er : loc) (h h' : heap) (g e : loc) (dfe : DataFrame) :
  create_data_structures_with_matching_sample ge er h = (h', Ok (g, e)) ->
  er <> ge ->
  h !! er = Some dfe ->
  exists dfg names j,
    h' !! ge = Some dfg /\ getitem NAME_COLUMN dfg = Ok names /\
    positions ID_COLUMN (columns dfe) = [j] /\
    h' !! e =
    Some {| columns := columns dfe;
            rows := List.filter (fun r => has_label (cell_at j (snd r)) (to_list names))
                                (rows dfe) |}.
Proof.
  intros Hrun Hne Her. apply create_inv in Hrun.
  destruct Hrun as (dfe0 & ids & h1 & dfg & names & dfe1 & ids1 & indexed & aligned & Hrun).
  destruct Hrun as (Her0 & _ & Hloop & Hge & Hnames & Her1 & Hids1 & _ & _ & -> & -> & ->).
  assert (Hframe : heap_frame ge h h1).
  { eapply (frames_for_each ge); [|exact Hloop].
    intros id. apply frames_overwrite_matching. }
  destruct Hframe as [Hother _].
  rewrite (Hother er dfe Hne Her) in Her1. inversion Her1; subst dfe1; clear Her1.
  destruct (getitem_rows _ _ _ Hids1) as (j & Hj & ->).
  exists dfg, names, j. split; [|split; [exact Hnames|split; [exact Hj|]]].
  - rewrite <- app_assoc. now apply lookup_app_l_Some.
  - rewrite list_lookup_middle by reflexivity. f_equal.
    unfold boolean_mask, isin. f_equal. rewrite map_map. cbn [snd].
    apply (mask_select_map (fun r => has_label (cell_at j (snd r)) (to_list names))).
Qed.

Lemma combine_map_same {A B C} (f : A -> B) (g : A -> C) (xs : list A) :
  combine (map f xs) (map g xs) = map (fun x => (f x, g x)) xs.
Proof. induction xs as [|x xs IH]; simpl; [reflexivity|]. now rewrite IH. Qed.

Lemma set_index_rows (s : string) (df : DataFrame) (j : nat) :
  positions (CStr s) (columns df) = [j] ->
  set_index (CStr s) df =
  Ok {| columns := List.filter (fun k => negb (cell_eqb k (CStr s))) (columns df);
        rows := map (fun r => (cell_at j (snd r), drop_cells (CStr s) (columns df) (snd r)))
                    (rows df) |}.
Proof.
  intros Hj. unfold set_index, getitem. rewrite Hj. cbn [bind].
  unfold drop. rewrite has_label_positions by (rewrite Hj; discriminate).
  cbn [bind columns rows]. do 2 f_equal.
  rewrite combine_map_same, map_map. reflexivity.
Qed.

Lemma list_eqb_combine (rs : list (label * list cell)) (ts : list label)
    (t : label) (r : label * list cell) :
  list_eqb cell_eqb (map fst rs) ts = true ->
  In (t, r) (combine ts rs) ->
  In r rs /\ cell_eqb (fst r) t = true.
Proof.
  revert ts. induction rs as [|r0 rs IH]; intros [|t0 ts]; simpl; try discriminate;
    try contradiction.
  intros Heq Hin. apply andb_true_iff in Heq. destruct Heq as [Hhead Htail].
  destruct Hin as [Hin|Hin].
  - inversion Hin; subst. auto.
  - destruct (IH ts Htail Hin). auto.
Qed.

(** The rows of a reindexed table, when every target label occurs in the
    index: each is a row of the table under an equal label. *)
Lemma reindex_rows (target : list label) (df out : DataFrame) :
  reindex target df = Ok out ->
  (forall l, In l target -> has_label l (index df) = true) ->
  columns out = columns df /\
  forall r', In r' (rows out) ->
    exists r, In r (rows df) /\ cell_eqb (fst r) (fst r') = true /\ snd r' = snd r.
Proof.
  unfold reindex. intros Hre Hin.
  destruct (list_eqb cell_eqb (index df) target) eqn:Heq.
  - inversion Hre; subst out; clear Hre. split; [reflexivity|].
    cbn [rows]. intros r' Hr'. apply in_map_iff in Hr'.
    destruct Hr' as ([t r] & <- & Hp).
    destruct (list_eqb_combine _ _ _ _ Heq Hp) as [Hr Ht].
    exists r. auto.
  - destruct (has_dup (index df)); [discriminate|].
    inversion Hre; subst out; clear Hre. split; [reflexivity|].
    cbn [rows]. intros r' Hr'. apply in_map_iff in Hr'.
    destruct Hr' as (l & <- & Hl). cbn [fst snd].
    specialize (Hin l Hl). unfold has_label, index in Hin.
    apply existsb_exists in Hin. destruct Hin as (c & Hc & Hlc).
    apply in_map_iff in Hc. destruct Hc as (r0 & <- & Hr0).
    unfold lookup_row.
    destruct (find (fun r => cell_eqb (fst r) l) (rows df)) as [r|] eqn:Hfind.
    + apply find_some in Hfind. destruct Hfind as [Hr Hrl]. exists r. auto.
    + apply (find_none _ _ Hfind) in Hr0. cbn beta in Hr0.
      rewrite cell_eqb_sym, Hlc in Hr0. discriminate.
Qed.

(** X9: the expression table that the matcher returns has the columns of the
    expression table it received without "NAME"; each of its rows carries
    the gene cells of a row of that table whose name, after the loop, equals
    the row's label.  No row is made up and no row of missing values is
    introduced. *)
Theorem create_data_structures_expression_rows
    (ge er : loc) (h h' : heap) (g e : loc) :
  create_data_structures_with_matching_sample ge er h = (h', Ok (g, e)) ->
  exists dfg j expression,
    h' !! ge = Some dfg /\ positions NAME_COLUMN (columns dfg) = [j] /\
    h' !! g = Some expression /\
    columns expression =
      List.filter (fun k => negb (cell_eqb k NAME_COLUMN)) (columns dfg) /\
    forall r', In r' (rows expression) ->
      exists r, In r (rows dfg) /\
                cell_eqb (cell_at j (snd r)) (fst r') = true /\
                snd r' = drop_cells NAME_COLUMN (columns dfg) (snd r).
Proof.
  intros Hrun. apply create_inv in Hrun.
  destruct Hrun as (dfe0 & ids & h1 & dfg & names & dfe1 & ids1 & indexed & aligned & Hrun).
  destruct Hrun as (_ & _ & _ & Hge & Hnames & _ & _ & Hset & Hre & -> & -> & ->).
  destruct (getitem_rows _ _ _ Hnames) as (j & Hj & Hnames').
  unfold NAME_COLUMN in *. rewrite (set_index_rows "NAME" dfg j Hj) in Hset.
  inversion Hset; subst indexed; clear Hset.
  apply reindex_rows in Hre.
  - destruct Hre as [Hcols Hrows]. exists dfg, j, aligned.
    split; [rewrite <- app_assoc; now apply lookup_app_l_Some|].
    split; [exact Hj|].
    split; [rewrite lookup_app_l by (rewrite length_app; simpl; lia);
            now rewrite list_lookup_middle|].
    split; [exact Hcols|].
    intros r' Hr'. destruct (Hrows r' Hr') as (r0 & Hr0 & Heq & Hcells).
    cbn [rows] in Hr0. apply in_map_iff in Hr0. destruct Hr0 as (r & <- & Hr).
    exists r. auto.
  - intros l Hl. rewrite isin_select in Hl. unfold to_list in Hl.
    apply in_map_iff in Hl. destruct Hl as (e0 & <- & He0).
    apply filter_In in He0. destruct He0 as [_ He0].
    unfold index. cbn [rows]. rewrite map_map. cbn [fst].
    subst names. unfold to_list in He0. rewrite map_map in He0. exact He0.
Qed.

(** ** Names after the loop *)

Lemma assign_rows_cell (j : nat) (v : cell) (bits : list bool)
    (rs : list (label * list cell)) :
  Forall2 (fun r r' =>
             cell_at j (snd r') = cell_at j (snd r) \/ cell_at j (snd r') = v)
          rs (assign_rows j v bits rs).
Proof.
  revert bits. induction rs as [|r rs IH]; intros bits.
  - destruct bits; constructor.
  - destruct bits as [|b bits]; simpl.
    + constructor; [auto|]. clear. induction rs; constructor; auto.
    + constructor; [|apply IH].
      destruct b; [|auto]. cbn [snd].
      destruct (Nat.lt_ge_cases j (length (snd r))) as [Hlt|Hge].
      * right. now apply cell_at_insert.
      * left. now rewrite list_insert_ge.
Qed.

Lemma overwrite_matching_names (ge : loc) (id : cell) (h h1 : heap) (res : result unit)
    (df : DataFrame) (j : nat) :
  overwrite_matching ge id h = (h1, res) ->
  h !! ge = Some df ->
  positions NAME_COLUMN (columns df) = [j] ->
  exists df1, h1 !! ge = Some df1 /\ renamed_within [id] j df df1.
Proof.
  intros Hrun Hge Hj.
  assert (Hsame : renamed_within [id] j df df).
  { split; [reflexivity|]. induction (rows df); constructor; auto. }
  unfold overwrite_matching in Hrun.
  rewrite (mbind_run _ _ _ _ _ (read_run _ _ _ Hge)) in Hrun.
  unfold mbind, lift, write in Hrun.
  destruct (getitem NAME_COLUMN df) as [names|e]; [|inversion Hrun; subst; eauto].
  destruct (str_contains id names) as [bits|e]; [|inversion Hrun; subst; eauto].
  unfold loc_assign in Hrun.
  destruct (mask_bits bits) as [bs|e]; cbn [bind] in Hrun; [|inversion Hrun; subst; eauto].
  rewrite Hj in Hrun. inversion Hrun; subst; clear Hrun.
  eexists. split.
  - apply list_lookup_insert_eq. eapply lookup_lt_Some; eauto.
  - split; [reflexivity|]. cbn [rows].
    eapply Forall2_impl; [apply assign_rows_cell|].
    intros r r' [H|H]; [left|right; left]; auto.
Qed.

Lemma renamed_within_cons (id : cell) (ids : list cell) (j : nat) (a b c : DataFrame) :
  renamed_within [id] j a b -> renamed_within ids j b c ->
  renamed_within (id :: ids) j a c.
Proof.
  intros [Cab Rab] [Cbc Rbc]. split; [congruence|]. clear Cab Cbc.
  revert Rab Rbc. generalize (rows a) (rows b) (rows c).
  intros ra rb. revert ra. induction rb as [|y rb IH]; intros ra rc Rab Rbc;
    inversion Rab as [|x ? ? ? Hxy Rab']; subst;
    inversion Rbc as [|? ? z ? Hyz Rbc']; subst; constructor.
  - destruct Hyz as [Hyz|Hyz]; [|right; simpl; auto].
    rewrite Hyz. destruct Hxy as [Hxy|[Hxy|[]]]; [left|right; simpl]; auto.
  - now apply IH.
Qed.

(** X10: whatever the IDs are and whether or not the loop runs to its end,
    the loop changes a name only into one of the clinical IDs: after it,
    every row of the expression table holds under "NAME" either the name it
    had or one of the IDs, and the columns are the same. *)
Theorem overwrite_loop_names
    (ids : list cell) (ge : loc) (h h' : heap) (res : result unit)
    (df : DataFrame) (j : nat) :
  for_each ids (overwrite_matching ge) h = (h', res) ->
  h !! ge = Some df ->
  positions NAME_COLUMN (columns df) = [j] ->
  exists df', h' !! ge = Some df' /\ renamed_within ids j df df'.
Proof.
  revert h df. induction ids as [|id ids IH]; intros h df Hrun Hge Hj.
  - inversion Hrun; subst. exists df. split; [assumption|].
    split; [reflexivity|]. induction (rows df); constructor; auto.
  - simpl in Hrun. unfold mbind in Hrun.
    destruct (overwrite_matching ge id h) as [h1 r1] eqn:Hstep.
    destruct (overwrite_matching_names _ _ _ _ _ _ _ Hstep Hge Hj) as (df1 & Hge1 & R1).
    destruct r1 as [[]|e].
    + destruct R1 as [C1 R1].
      destruct (IH h1 df1 Hrun Hge1) as (df' & Hge' & R'); [now rewrite C1|].
      exists df'. split; [assumption|].
      eapply renamed_within_cons; [split; eassumption | exact R'].
    + inversion Hrun; subst. exists df1. split; [assumption|].
      destruct R1 as [C1 R1]. split; [assumption|].
      eapply Forall2_impl; [exact R1|].
      intros r r' [H|[H|[]]]; [left|right; simpl]; auto.
Qed.

(** ** The standard deviation of a single sample *)

Lemma numeric_column_length (cs : list cell) (xs : list float) :
  numeric_column cs = Ok xs -> length xs = length cs.
Proof.
  revert xs. induction cs as [|c cs IH]; simpl; intros xs H.
  - now inversion H.
  - bind_inv H. bind_inv H. inversion H; subst. simpl. f_equal. auto.
Qed.

Lemma nanstd_few (np_sum : list float -> float) (xs : list float) :
  (length xs <= 1)%nat -> nanstd np_sum 1 xs = nan.
Proof.
  intros Hlen. unfold nanstd, nanvar.
  pose proof (filter_length_le (fun x => negb (PrimFloat.is_nan x)) xs) as Hle.
  destruct (Nat.leb_spec (length (List.filter (fun x => negb (PrimFloat.is_nan x)) xs)) 1);
    [reflexivity | lia].
Qed.

(** X11: on a table with at most one row (a single sample, or none)
    [get_std] gives NaN for every column it returns, however numpy adds. *)
Theorem get_std_single_sample (np_sum : list float -> float)
    (df : DataFrame) (s : Series) :
  (length (rows df) <= 1)%nat ->
  get_std np_sum df = Ok s ->
  forall e, In e s -> snd e = CFloat nan.
Proof.
  intros Hlen H. unfold get_std, std in H. apply std_columns_spec in H.
  revert H. generalize (seq 0 (length (columns df))).
  induction s as [|e0 s IH]; intros js H e He; [contradiction|].
  inversion H as [|j ? js' ? (xs & Hxs & He0) Hrest]; subst.
  destruct He as [<-|He]; [|eapply IH; eauto].
  cbn [snd]. f_equal. apply nanstd_few.
  rewrite (numeric_column_length _ _ Hxs). unfold column_at. now rewrite length_map.
Qed.

(** ** Running the loop a second time *)

Lemma is_prefix_app (p s : list ascii) :
  is_prefix p s = true <-> exists b, s = p ++ b.
Proof.
  revert s. induction p as [|c p IH]; intros s; simpl.
  - split; eauto.
  - destruct s as [|d s]; [split; [discriminate | intros [b Hb]; discriminate]|].
    rewrite andb_true_iff, Ascii.eqb_eq, IH. split.
    + intros [-> [b ->]]. eauto.
    + intros [b Hb]. inversion Hb. eauto.
Qed.

Lemma is_infix_app (p s : list ascii) :
  is_infix p s = true <-> exists a b, s = a ++ p ++ b.
Proof.
  induction s as [|d s IH]; simpl.
  - rewrite orb_false_r, is_prefix_app. split.
    + intros [b Hb]. exists [], b. exact Hb.
    + intros (a & b & H). destruct a; [eauto|discriminate].
  - rewrite orb_true_iff, is_prefix_app, IH. split.
    + intros [[b Hb]|(a & b & ->)]; [exists [], b; exact Hb | exists (d :: a), b; reflexivity].
    + intros (a & b & H). destruct a as [|d' a]; [left; eauto|].
      right. inversion H. eauto.
Qed.

Lemma substring_of_trans (a b c : string) :
  substring_of a b = true -> substring_of b c = true -> substring_of a c = true.
Proof.
  unfold substring_of. rewrite !is_infix_app.
  intros (x & y & ->) (u & v & ->).
  exists (u ++ x), (y ++ v). now rewrite !app_assoc.
Qed.

Lemma substring_of_antisym (a b : string) :
  substring_of a b = true -> substring_of b a = true -> a = b.
Proof.
  unfold substring_of. rewrite !is_infix_app.
  intros (x & y & Hb) (u & v & Ha).
  assert (Hlen : length x = 0%nat /\ length y = 0%nat).
  { apply (f_equal (@length ascii)) in Hb, Ha.
    rewrite !length_app in Hb, Ha. lia. }
  destruct Hlen as [Hx Hy].
  destruct x; [|discriminate]. destruct y; [|discriminate].
  simpl in Hb. rewrite app_nil_r in Hb.
  rewrite <- (string_of_list_ascii_of_string a), <- (string_of_list_ascii_of_string b).
  now rewrite Hb.
Qed.

Lemma final_name_cons (id : string) (ids : list string) (nm : string) :
  final_name (id :: ids) nm = final_name ids (if substring_of id nm then id else nm).
Proof. reflexivity. Qed.

Lemma final_name_substring (ids : list string) (nm : string) :
  final_name ids nm = nm \/ substring_of (final_name ids nm) nm = true.
Proof.
  revert nm. induction ids as [|id ids IH]; intros nm; [left; reflexivity|].
  rewrite final_name_cons.
  destruct (substring_of id nm) eqn:Hid; [|apply IH].
  right. destruct (IH id) as [E|H]; [now rewrite E|].
  eapply substring_of_trans; eauto.
Qed.

(** An ID that occurs in the final name is the final name. *)
Lemma final_name_absorbs (ids : list string) (nm id : string) :
  In id ids -> substring_of id (final_name ids nm) = true -> final_name ids nm = id.
Proof.
  revert nm. induction ids as [|i ids IH]; intros nm Hin Hsub; [contradiction|].
  rewrite final_name_cons in *.
  destruct Hin as [->|Hin]; [|now apply IH].
  assert (Hc : (if substring_of id nm then id else nm) = id).
  { destruct (substring_of id nm) eqn:Hid; [reflexivity|].
    destruct (final_name_substring ids nm) as [E|E].
    - rewrite E in Hsub. congruence.
    - rewrite (substring_of_trans _ _ _ Hsub E) in Hid. discriminate. }
  rewrite Hc in *.
  destruct (final_name_substring ids id) as [E|E]; [assumption|].
  symmetry. now apply substring_of_antisym.
Qed.

Lemma final_name_fixed (ids l : list string) (nm : string) :
  (forall id, In id l -> In id ids) ->
  final_name l (final_name ids nm) = final_name ids nm.
Proof.
  intros Hl. induction l as [|id l IH]; [reflexivity|].
  rewrite final_name_cons.
  destruct (substring_of id (final_name ids nm)) eqn:Hid.
  - rewrite <- (final_name_absorbs ids nm id) by (auto; apply Hl; simpl; auto).
    apply IH. intros; apply Hl; simpl; auto.
  - apply IH. intros; apply Hl; simpl; auto.
Qed.

Lemma fold_name_step (ids : list string) (nm : string) :
  fold_left name_step ids (CStr nm) = CStr (final_name ids nm).
Proof.
  revert nm. induction ids as [|id ids IH]; intros nm; [reflexivity|].
  rewrite final_name_cons. simpl. destruct (substring_of id nm); apply IH.
Qed.

Lemma insert_same_cell (j : nat) (cs : list cell) :
  is_str (cell_at j cs) = true -> <[j := cell_at j cs]> cs = cs.
Proof.
  revert j. induction cs as [|c cs IH]; intros [|j] H; simpl in *;
    try discriminate; try reflexivity.
  f_equal. now apply IH.
Qed.

Lemma overwrite_row_insert (j : nat) (id : string) (r : label * list cell) :
  is_str (cell_at j (snd r)) = true ->
  overwrite_row j id r = (fst r, <[j := name_step (cell_at j (snd r)) id]> (snd r)).
Proof.
  intros H. unfold overwrite_row, name_step.
  destruct (cell_at j (snd r)) eqn:Hc; try discriminate.
  destruct (substring_of id s); [reflexivity|].
  rewrite <- Hc, insert_same_cell by (now rewrite Hc). now destruct r.
Qed.

(** The row after the passes for [ids]: its name is the fold of [name_step],
    the other cells are untouched. *)
Lemma overwrite_rows_fold (j : nat) (ids : list string) (r : label * list cell) :
  is_str (cell_at j (snd r)) = true ->
  fold_left (fun r0 id => overwrite_row j id r0) ids r =
  (fst r, <[j := fold_left name_step ids (cell_at j (snd r))]> (snd r)).
Proof.
  revert r. induction ids as [|id ids IH]; intros r H; simpl.
  - rewrite insert_same_cell by assumption. now destruct r.
  - pose proof (is_str_in_range _ _ H) as Hj.
    rewrite overwrite_row_insert by assumption.
    rewrite IH; cbn [fst snd]; rewrite cell_at_insert by assumption.
    + now rewrite list_insert_insert_eq.
    + now apply name_step_is_str.
Qed.

Lemma overwrite_frame_fold (j : nat) (ids : list string) (df : DataFrame) :
  fold_left (overwrite_frame j) ids df =
  {| columns := columns df;
     rows := map (fun r => fold_left (fun r0 id => overwrite_row j id r0) ids r) (rows df) |}.
Proof.
  revert df. induction ids as [|id ids IH]; intros df; simpl.
  - rewrite map_id. now destruct df.
  - rewrite IH. unfold overwrite_frame. cbn [columns rows]. now rewrite map_map.
Qed.

Lemma fold_name_step_is_str (ids : list string) (c : cell) :
  is_str c = true -> is_str (fold_left name_step ids c) = true.
Proof.
  revert c. induction ids as [|id ids IH]; intros c H; [assumption|].
  simpl. apply IH. now apply name_step_is_str.
Qed.

(** The store after the loop, for IDs without special characters. *)
Lemma overwrite_loop_plain (ids : list string) (h : heap) (ge : loc) (df : DataFrame) (j : nat) :
  h !! ge = Some df ->
  positions NAME_COLUMN (columns df) = [j] ->
  (forall r, In r (rows df) -> is_str (cell_at j (snd r)) = true) ->
  (forall id, In id ids -> re_plain id = true) ->
  for_each (map CStr ids) (overwrite_matching ge) h =
  (<[ge := fold_left (overwrite_frame j) ids df]> h, Ok tt).
Proof.
  revert h df. induction ids as [|id ids IH]; intros h df Hge Hpos Hstr Hids; simpl.
  - unfold ret. now rewrite list_insert_id.
  - unfold mbind at 1.
    rewrite (overwrite_matching_plain h ge df j id Hge Hpos Hstr) by (apply Hids; simpl; auto).
    rewrite (IH _ (overwrite_frame j df id)).
    + now rewrite list_insert_insert_eq.
    + apply list_lookup_insert_eq. eapply lookup_lt_Some; eauto.
    + exact Hpos.
    + simpl. intros r Hr. apply in_map_iff in Hr. destruct Hr as (r0 & <- & Hr0).
      destruct (overwrite_row_name j id r0 (Hstr _ Hr0)) as [_ ->].
      apply name_step_is_str. now apply Hstr.
    + intros id' Hid'. apply Hids. simpl. auto.
Qed.

Lemma overwrite_frame_fold_twice (j : nat) (ids : list string) (df : DataFrame) :
  (forall r, In r (rows df) -> is_str (cell_at j (snd r)) = true) ->
  fold_left (overwrite_frame j) ids (fold_left (overwrite_frame j) ids df) =
  fold_left (overwrite_frame j) ids df.
Proof.
  intros Hstr. rewrite !overwrite_frame_fold. cbn [columns rows]. f_equal.
  rewrite map_map. apply map_ext_in. intros r Hr.
  specialize (Hstr r Hr). pose proof (is_str_in_range _ _ Hstr) as Hj.
  rewrite (overwrite_rows_fold j ids r Hstr).
  rewrite overwrite_rows_fold; cbn [fst snd]; rewrite cell_at_insert by assumption.
  - rewrite list_insert_insert_eq. do 2 f_equal.
    destruct (cell_at j (snd r)) as [nm| | |]; try discriminate.
    rewrite !fold_name_step. f_equal. now apply final_name_fixed.
  - now apply fold_name_step_is_str.
Qed.

(** X12: for IDs without special characters and an expression table whose
    names are strings, running the loop a second time changes nothing: the
    store the first run left is the store after the second. *)
Theorem overwrite_loop_twice
    (ids : list string) (h h1 : heap) (ge : loc) (df : DataFrame) (j : nat) :
  h !! ge = Some df ->
  positions NAME_COLUMN (columns df) = [j] ->
  (forall r, In r (rows df) -> is_str (cell_at j (snd r)) = true) ->
  (forall id, In id ids -> re_plain id = true) ->
  for_each (map CStr ids) (overwrite_matching ge) h = (h1, Ok tt) ->
  for_each (map CStr ids) (overwrite_matching ge) h1 = (h1, Ok tt).
Proof.
  intros Hge Hpos Hstr Hids Hrun.
  rewrite (overwrite_loop_plain ids h ge df j Hge Hpos Hstr Hids) in Hrun.
  inversion Hrun as [Hh1]. clear Hrun.
  pose proof (lookup_lt_Some _ _ _ Hge) as Hlt.
  set (D := fold_left (overwrite_frame j) ids df) in *.
  assert (HD : D = {| columns := columns df;
                      rows := map (fun r => fold_left (fun r0 id => overwrite_row j id r0) ids r)
                                  (rows df) |})
    by apply overwrite_frame_fold.
  rewrite (overwrite_loop_plain ids _ ge D j).
  - subst D. rewrite overwrite_frame_fold_twice by assumption.
    now rewrite list_insert_insert_eq.
  - now apply list_lookup_insert_eq.
  - rewrite HD. exact Hpos.
  - rewrite HD. cbn [rows]. intros r Hr. apply in_map_iff in Hr.
    destruct Hr as (r0 & <- & Hr0). specialize (Hstr r0 Hr0).
    rewrite overwrite_rows_fold by assumption. cbn [snd].
    rewrite cell_at_insert by (now apply is_str_in_range).
    now apply fold_name_step_is_str.
  - exact Hids.
Qed.

(** ** When the matcher returns *)

Lemma create_after_loop
    (ge er : loc) (h h1 : heap) (dfe dfg dfe1 : DataFrame) (ids names ids1 : Series) :
  h !! er = Some dfe -> getitem ID_COLUMN dfe = Ok ids ->
  for_each (to_list ids) (overwrite_matching ge) h = (h1, Ok tt) ->
  h1 !! ge = Some dfg -> getitem NAME_COLUMN dfg = Ok names ->
  h1 !! er = Some dfe1 -> getitem ID_COLUMN dfe1 = Ok ids1 ->
  exists indexed,
    set_index NAME_COLUMN dfg = Ok indexed /\ index indexed = to_list names /\
    create_data_structures_with_matching_sample ge er h =
    match reindex (to_list (mask_select (isin (to_list names) ids1) ids1)) indexed with
    | Ok aligned =>
        ((h1 ++ [aligned]) ++ [boolean_mask (isin (to_list names) ids1) dfe1],
         Ok (length h1, S (length h1)))
    | Raise e => (h1, Raise e)
    end.
Proof.
  intros Her Hids Hloop Hge Hnames Her1 Hids1.
  destruct (set_index_Ok "NAME" dfg names Hnames) as (indexed & Hset & Hindex).
  exists indexed. split; [exact Hset|]. split; [exact Hindex|].
  unfold create_data_structures_with_matching_sample.
  rewrite (mbind_run _ _ _ _ _ (read_run _ _ _ Her)).
  unfold mbind at 1, lift at 1. rewrite Hids.
  rewrite (mbind_run _ _ _ _ _ Hloop).
  rewrite (mbind_run _ _ _ _ _ (read_run _ _ _ Hge)).
  unfold mbind at 1, lift at 1. rewrite Hnames.
  rewrite (mbind_run _ _ _ _ _ (read_run _ _ _ Her1)).
  unfold mbind at 1, lift at 1. rewrite Hids1.
  unfold mbind at 1, lift at 1. fold NAME_COLUMN in Hset. rewrite Hset.
  unfold mbind at 1, lift at 1.
  rewrite (getitem_boolean_mask _ _ _ _ Hids1).
  unfold mbind, lift, alloc, ret.
  destruct (reindex _ indexed); [|reflexivity].
  rewrite length_app. simpl. now rewrite Nat.add_1_r.
Qed.

(** X13: when the loop has run to its end and no two expression rows have
    the same name after it, the matcher returns: the store is the one the
    loop left, extended by the two new tables, which are returned in the
    order expression table, clinical table. *)
Theorem create_data_structures_returns
    (ge er : loc) (h h1 : heap) (dfe dfg dfe1 : DataFrame) (ids names ids1 : Series) :
  h !! er = Some dfe -> getitem ID_COLUMN dfe = Ok ids ->
  for_each (to_list ids) (overwrite_matching ge) h = (h1, Ok tt) ->
  h1 !! ge = Some dfg -> getitem NAME_COLUMN dfg = Ok names ->
  h1 !! er = Some dfe1 -> getitem ID_COLUMN dfe1 = Ok ids1 ->
  has_dup (to_list names) = false ->
  exists aligned,
    create_data_structures_with_matching_sample ge er h =
    ((h1 ++ [aligned]) ++ [boolean_mask (isin (to_list names) ids1) dfe1],
     Ok (length h1, S (length h1))).
Proof.
  intros Her Hids Hloop Hge Hnames Her1 Hids1 Hdup.
  destruct (create_after_loop _ _ _ _ _ _ _ _ _ _ Her Hids Hloop Hge Hnames Her1 Hids1)
    as (indexed & _ & Hindex & ->).
  unfold reindex. rewrite Hindex, Hdup.
  destruct (list_eqb cell_eqb (to_list names) _); eauto.
Qed.

(** * The tables after a call *)

Lemma keeps_ret {A} (a : A) : keeps (ret a).
Proof. intros h h' r H l df Hl. inversion H; subst. exact Hl. Qed.

Lemma keeps_lift {A} (x : result A) : keeps (lift x).
Proof. intros h h' r H l df Hl. inversion H; subst. exact Hl. Qed.

Lemma keeps_read (l0 : loc) : keeps (read l0).
Proof.
  intros h h' r H l df Hl. unfold read in H.
  destruct (h !! l0); inversion H; subst; exact Hl.
Qed.

Lemma keeps_alloc (d : DataFrame) : keeps (alloc d).
Proof.
  intros h h' r H l df Hl. inversion H; subst. now apply lookup_app_l_Some.
Qed.

Lemma keeps_mbind {A B} (m : M A) (k : A -> M B) :
  keeps m -> (forall a, keeps (k a)) -> keeps (mbind m k).
Proof.
  intros Hm Hk h h' r H l df Hl. unfold mbind in H.
  destruct (m h) as [h1 [a|e]] eqn:Hmh.
  - eapply Hk; [exact H|]. eapply Hm; eauto.
  - inversion H; subst. eapply Hm; eauto.
Qed.

Ltac keeps_steps :=
  repeat first
    [ apply keeps_ret | apply keeps_lift | apply keeps_read | apply keeps_alloc
    | apply keeps_mbind; [|intros] ].

Lemma keeps_derive (l : loc) (f : DataFrame -> result DataFrame) : keeps (derive l f).
Proof. unfold derive. keeps_steps. Qed.

Lemma keeps_encode (clinical_data : loc) :
  keeps (encode_estrogen_receptor_obj clinical_data).
Proof.
  unfold encode_estrogen_receptor_obj.
  repeat first [ apply keeps_derive | apply keeps_mbind; [|intros] ]; keeps_steps.
Qed.

Lemma read_last (h : heap) (x : DataFrame) :
  read (length h) (h ++ [x]) = (h ++ [x], Ok x).
Proof. apply read_run. now apply list_lookup_middle. Qed.

Lemma derive_run (l : loc) (f : DataFrame -> result DataFrame)
    (h : heap) (df df' : DataFrame) :
  h !! l = Some df -> f df = Ok df' ->
  derive l f h = (h ++ [df'], Ok (length h)).
Proof.
  intros Hl Hf. unfold derive.
  rewrite (mbind_run _ _ _ _ _ (read_run _ _ _ Hl)).
  unfold mbind, lift, alloc. now rewrite Hf.
Qed.

Lemma derive_last (f : DataFrame -> result DataFrame) (h : heap) (x y : DataFrame) :
  f x = Ok y ->
  derive (length h) f (h ++ [x]) = ((h ++ [x]) ++ [y], Ok (length (h ++ [x]))).
Proof. intros Hf. eapply derive_run; [|exact Hf]. now apply list_lookup_middle. Qed.

(** The steps of the encoder on the store give the table of
    [encode_estrogen_receptor], as a new object. *)
Lemma encode_estrogen_receptor_obj_Ok
    (clinical_data : loc) (h : heap) (df out : DataFrame) :
  h !! clinical_data = Some df ->
  encode_estrogen_receptor df = Ok out ->
  exists l, snd (encode_estrogen_receptor_obj clinical_data h) = Ok l /\
            (length h <= l)%nat /\
            fst (encode_estrogen_receptor_obj clinical_data h) !! l = Some out.
Proof.
  intros Hcd Henc. unfold encode_estrogen_receptor in Henc.
  bind_inv Henc. rename x into status. rename Hx into Hstatus.
  bind_inv Henc. rename x into d1. rename Hx into Hd1.
  bind_inv Henc. rename x into d2. rename Hx into Hd2.
  unfold encode_estrogen_receptor_obj.
  rewrite (mbind_run _ _ _ _ _ (read_run _ _ _ Hcd)).
  rewrite Hstatus.
  rewrite (mbind_run (lift (Ok status)) _ h h status eq_refl).
  rewrite (mbind_run (alloc (get_dummies status)) _ h _ _ eq_refl).
  assert (Hpaste : (run a := read (length h) in
                    run b := read clinical_data in
                    alloc (concat_axis1 a b)) (h ++ [get_dummies status]) =
                   ((h ++ [get_dummies status]) ++ [concat_axis1 (get_dummies status) df],
                    Ok (length (h ++ [get_dummies status])))).
  { rewrite (mbind_run _ _ _ _ _ (read_last _ _)).
    now rewrite (mbind_run _ _ _ _ _ (read_run _ _ _ (lookup_app_l_Some _ _ _ _ Hcd))). }
  rewrite (mbind_run _ _ _ _ _ Hpaste).
  rewrite (mbind_run _ _ _ _ _ (derive_last _ _ _ _ Hd1)).
  rewrite (mbind_run _ _ _ _ _ (derive_last _ _ _ _ Hd2)).
  rewrite (mbind_run _ _ _ _ _
             (derive_last (fun d => Ok (rename NEGATIVE ER_COLUMN d)) _ _ _ eq_refl)).
  rewrite (derive_last _ _ _ _ Henc). cbn [fst snd].
  eexists. split; [reflexivity|]. split.
  - rewrite !length_app. lia.
  - now apply list_lookup_middle.
Qed.

(** The table after the passes for [ids]: every name is the fold of
    [name_step] over the IDs, every other cell is as before. *)
Lemma overwrite_frame_names (j : nat) (ids : list string) (df : DataFrame) :
  (forall r, In r (rows df) -> is_str (cell_at j (snd r)) = true) ->
  fold_left (overwrite_frame j) ids df = with_names j ids df.
Proof.
  intros Hstr. rewrite overwrite_frame_fold. unfold with_names. f_equal.
  apply map_ext_in. intros r Hr. apply overwrite_rows_fold. now apply Hstr.
Qed.

(** C6 (amended): [encode_estrogen_receptor] and [get_std] overwrite no
    table object, and the encoder returns its table as a new object.  The
    matcher leaves every object other than the expression table it received
    as it was; it writes into that expression table, where it changes cells
    of the "NAME" column only, and for clinical IDs without special
    characters the table the caller holds after the call carries the
    normalized names: each name folded over the IDs in the order of the
    clinical table. *)
Theorem inputs_after_call (h : heap) :
  (forall cd l df, h !! l = Some df ->
     fst (encode_estrogen_receptor_obj cd h) !! l = Some df) /\
  (forall cd df out, h !! cd = Some df -> encode_estrogen_receptor df = Ok out ->
     exists l, snd (encode_estrogen_receptor_obj cd h) = Ok l /\
               (length h <= l)%nat /\
               fst (encode_estrogen_receptor_obj cd h) !! l = Some out) /\
  (forall np_sum ge, fst (get_std_obj np_sum ge h) = h) /\
  (forall ge er l df, l <> ge -> h !! l = Some df ->
     fst (create_data_structures_with_matching_sample ge er h) !! l = Some df) /\
  (forall ge er df, h !! ge = Some df ->
     exists df',
       fst (create_data_structures_with_matching_sample ge er h) !! ge = Some df' /\
       same_but_names df df') /\
  (forall ge er df dfe j i ids,
     h !! ge = Some df -> h !! er = Some dfe ->
     positions NAME_COLUMN (columns df) = [j] ->
     positions ID_COLUMN (columns dfe) = [i] ->
     column_at i dfe = map CStr ids ->
     (forall r, In r (rows df) -> is_str (cell_at j (snd r)) = true) ->
     (forall id, In id ids -> re_plain id = true) ->
     fst (create_data_structures_with_matching_sample ge er h) !! ge
     = Some (with_names j ids df)).
Proof.
  split; [|split; [|split; [|split; [|split]]]].
  - intros cd l df Hl.
    destruct (encode_estrogen_receptor_obj cd h) as [h' r] eqn:Hrun.
    exact (keeps_encode cd h h' r Hrun l df Hl).
  - intros cd df out. apply encode_estrogen_receptor_obj_Ok.
  - intros np_sum ge. unfold get_std_obj, mbind, read, lift.
    destruct (h !! ge); reflexivity.
  - intros ge er l df Hl Hdf.
    destruct (create_data_structures_with_matching_sample ge er h) as [h' r] eqn:Hrun.
    destruct (frames_create ge er h h' r Hrun) as [Hother _]. simpl. auto.
  - intros ge er df Hdf.
    destruct (create_data_structures_with_matching_sample ge er h) as [h' r] eqn:Hrun.
    destruct (frames_create ge er h h' r Hrun) as [_ Hge]. simpl. auto.
  - intros ge er df dfe j i ids Hge Her Hj Hi Hcol Hstr Hids.
    pose proof (overwrite_loop_plain ids h ge df j Hge Hj Hstr Hids) as Hloop.
    rewrite (overwrite_frame_names j ids df Hstr) in Hloop.
    unfold create_data_structures_with_matching_sample.
    rewrite (mbind_run _ _ _ _ _ (read_run _ _ _ Her)).
    unfold mbind at 1, lift at 1. unfold getitem at 1. rewrite Hi.
    unfold to_list at 1. rewrite map_map. cbn [snd].
    change (map (fun r => cell_at i (snd r)) (rows dfe)) with (column_at i dfe).
    rewrite Hcol, (mbind_run _ _ _ _ _ Hloop).
    match goal with
    | |- fst (?m _) !! _ = _ => assert (Hkeeps : keeps m) by keeps_steps;
                                destruct (m (<[ge := with_names j ids df]> h))
                                  as [h' r] eqn:Hrun
    end.
    apply (Hkeeps _ _ _ Hrun). apply list_lookup_insert_eq.
    eapply lookup_lt_Some; eauto.
Qed.

(** ** Instances of the further properties *)

Lemma load_gene_expression_data_transposed_witness :
  load_gene_expression_data sample_matrix = Ok sample_expression /\
  load_gene_expression_data mixed_matrix =
  Ok {| columns := [CStr "NAME"; CStr "g1"; CStr "g3"];
        rows := [(CInt 0, [CStr "s1"; CFloat 4; CFloat 7]);
                 (CInt 1, [CStr "s2"; CFloat 0.5; CFloat 1.5])] |}.
Proof.
  split.
  - apply (load_gene_expression_data_transposed sample_matrix); reflexivity.
  - apply (load_gene_expression_data_transposed mixed_matrix); reflexivity.
Defined.

Lemma load_gene_expression_data_raises_witness :
  load_gene_expression_data clash_matrix = Raise ValueError.
Proof.
  apply (proj2 (load_gene_expression_data_raises clash_matrix ValueError)).
  repeat split.
Defined.

Lemma load_gene_expression_data_gene_called_index_witness :
  load_gene_expression_data index_matrix =
  Ok {| columns := [CStr "level_0"; CStr "NAME"; CStr "g1"];
        rows := [(CInt 0, [CStr "s1"; CFloat 1; CFloat 3]);
                 (CInt 1, [CStr "s2"; CFloat 2; CFloat 4])] |}.
Proof.
  apply (load_gene_expression_data_gene_called_index index_matrix); reflexivity.
Defined.

Lemma load_clinical_data_missing_column_witness :
  load_clinical_data sheet_without_stage = Raise KeyError.
Proof.
  apply (load_clinical_data_missing_column sheet_without_stage STAGE_COLUMN).
  - simpl. auto.
  - reflexivity.
Defined.

Lemma load_clinical_data_kept_rows_witness :
  load_clinical_data sample_sheet = Ok sample_clinical.
Proof.
  apply (load_clinical_data_kept_rows sample_sheet 1 2 3); reflexivity.
Defined.

Lemma encode_estrogen_receptor_twice_witness :
  encode_estrogen_receptor
    {| columns := [CStr "Complete TCGA ID"; CStr "ER Status"; CStr "AJCC Stage"];
       rows := [(CInt 0, [CStr "TCGA-A1-01"; CInt 1; CStr "I"]);
                (CInt 1, [CStr "TCGA-A2-02"; CInt 0; CStr "II"])] |}
  = Raise KeyError.
Proof.
  apply (encode_estrogen_receptor_twice sample_clinical).
  - split; [reflexivity|]. intros r Hr. simpl in Hr.
    destruct Hr as [<-|[<-|[]]]; do 3 eexists; simpl; repeat split; auto.
  - reflexivity.
Defined.

Lemma create_data_structures_missing_column_witness :
  create_data_structures_with_matching_sample 0 1 [unnamed_expression; sample_clinical]
  = ([unnamed_expression; sample_clinical], Raise KeyError).
Proof.
  apply (create_data_structures_missing_column 0 1 _ unnamed_expression sample_clinical).
  - reflexivity.
  - reflexivity.
  - right. split; [exists 0%nat|]; reflexivity.
Defined.

Lemma create_data_structures_clinical_rows_witness :
  exists dfg names j,
    fst (create_data_structures_with_matching_sample 0 1 sample_heap) !! 0 = Some dfg /\
    getitem NAME_COLUMN dfg = Ok names /\
    positions ID_COLUMN (columns sample_clinical) = [j] /\
    fst (create_data_structures_with_matching_sample 0 1 sample_heap) !! 3 =
    Some {| columns := columns sample_clinical;
            rows := List.filter (fun r => has_label (cell_at j (snd r)) (to_list names))
                                (rows sample_clinical) |}.
Proof.
  apply (create_data_structures_clinical_rows 0 1 sample_heap _ 2 3 sample_clinical).
  - vm_compute. reflexivity.
  - lia.
  - reflexivity.
Defined.

Lemma create_data_structures_expression_rows_witness :
  exists dfg j expression,
    fst (create_data_structures_with_matching_sample 0 1 sample_heap) !! 0 = Some dfg /\
    positions NAME_COLUMN (columns dfg) = [j] /\
    fst (create_data_structures_with_matching_sample 0 1 sample_heap) !! 2 = Some expression /\
    columns expression =
      List.filter (fun k => negb (cell_eqb k NAME_COLUMN)) (columns dfg) /\
    forall r', In r' (rows expression) ->
      exists r, In r (rows dfg) /\
                cell_eqb (cell_at j (snd r)) (fst r') = true /\
                snd r' = drop_cells NAME_COLUMN (columns dfg) (snd r).
Proof.
  apply (create_data_structures_expression_rows 0 1 sample_heap _ 2 3).
  vm_compute. reflexivity.
Defined.

Lemma overwrite_loop_names_witness :
  exists df',
    fst (for_each [CStr "TCGA-A1-01"; CStr "TCGA-A2-02"] (overwrite_matching 0) sample_heap) !! 0
    = Some df' /\
    renamed_within [CStr "TCGA-A1-01"; CStr "TCGA-A2-02"] 0 sample_expression df'.
Proof.
  apply (overwrite_loop_names [CStr "TCGA-A1-01"; CStr "TCGA-A2-02"] 0 sample_heap _ (Ok tt)
           sample_expression 0).
  - vm_compute. reflexivity.
  - reflexivity.
  - reflexivity.
Defined.

Lemma get_std_single_sample_witness :
  get_std (contiguous_sum 0) one_sample =
    Ok [(CStr "g1", CFloat nan); (CStr "g2", CFloat nan)] /\
  snd (CStr "g1", CFloat nan) = CFloat nan.
Proof.
  split; [vm_compute; reflexivity|].
  apply (get_std_single_sample (contiguous_sum 0) one_sample
           [(CStr "g1", CFloat nan); (CStr "g2", CFloat nan)]).
  - simpl. lia.
  - vm_compute. reflexivity.
  - simpl. auto.
Defined.

Lemma overwrite_loop_twice_witness :
  for_each (map CStr ["TCGA-A1-01"; "TCGA-A2-02"]) (overwrite_matching 0)
    (fst (for_each (map CStr ["TCGA-A1-01"; "TCGA-A2-02"]) (overwrite_matching 0) sample_heap))
  = (fst (for_each (map CStr ["TCGA-A1-01"; "TCGA-A2-02"]) (overwrite_matching 0) sample_heap),
     Ok tt).
Proof.
  apply (overwrite_loop_twice ["TCGA-A1-01"; "TCGA-A2-02"] sample_heap _ 0 sample_expression 0).
  - reflexivity.
  - reflexivity.
  - intros r Hr. simpl in Hr. destruct Hr as [<-|[<-|[]]]; reflexivity.
  - intros id Hid. simpl in Hid. destruct Hid as [<-|[<-|[]]]; reflexivity.
  - vm_compute. reflexivity.
Defined.

Lemma create_data_structures_returns_witness :
  exists aligned,
    create_data_structures_with_matching_sample 0 1 sample_heap =
    (([{| columns := [CStr "NAME"; CStr "g1"; CStr "g3"];
          rows := [(CInt 0, [CStr "TCGA-A1-01"; CFloat 2; CFloat 1]);
                   (CInt 1, [CStr "TCGA-A2-02"; CFloat 4; CFloat 7])] |};
       sample_clinical] ++ [aligned]) ++ [sample_clinical],
     Ok (2%nat, 3%nat)).
Proof.
  apply (create_data_structures_returns 0 1 sample_heap
           [{| columns := [CStr "NAME"; CStr "g1"; CStr "g3"];
               rows := [(CInt 0, [CStr "TCGA-A1-01"; CFloat 2; CFloat 1]);
                        (CInt 1, [CStr "TCGA-A2-02"; CFloat 4; CFloat 7])] |};
            sample_clinical]
           sample_clinical
           {| columns := [CStr "NAME"; CStr "g1"; CStr "g3"];
              rows := [(CInt 0, [CStr "TCGA-A1-01"; CFloat 2; CFloat 1]);
                       (CInt 1, [CStr "TCGA-A2-02"; CFloat 4; CFloat 7])] |}
           sample_clinical
           [(CInt 0, CStr "TCGA-A1-01"); (CInt 1, CStr "TCGA-A2-02")]
           [(CInt 0, CStr "TCGA-A1-01"); (CInt 1, CStr "TCGA-A2-02")]
           [(CInt 0, CStr "TCGA-A1-01"); (CInt 1, CStr "TCGA-A2-02")]);
    reflexivity.
Defined.

Lemma inputs_after_call_witness :
  fst (encode_estrogen_receptor_obj 1 sample_heap) !! 1 = Some sample_clinical /\
  fst (create_data_structures_with_matching_sample 0 1 sample_heap) !! 1
  = Some sample_clinical /\
  fst (create_data_structures_with_matching_sample 0 1 sample_heap) !! 0
  = Some {| columns := [CStr "NAME"; CStr "g1"; CStr "g3"];
            rows := [(CInt 0, [CStr "TCGA-A1-01"; CFloat 2; CFloat 1]);
                     (CInt 1, [CStr "TCGA-A2-02"; CFloat 4; CFloat 7])] |}.
Proof.
  destruct (inputs_after_call sample_heap) as (Henc & _ & _ & Hother & _ & Hnames).
  split; [|split].
  - apply (Henc 1 1 sample_clinical). reflexivity.
  - apply (Hother 0 1 1 sample_clinical); [lia | reflexivity].
  - apply (Hnames 0 1 sample_expression sample_clinical 0%nat 0%nat
             ["TCGA-A1-01"; "TCGA-A2-02"]); try reflexivity.
    + intros r Hr. simpl in Hr. destruct Hr as [<-|[<-|[]]]; reflexivity.
    + intros id Hid. simpl in Hid. destruct Hid as [<-|[<-|[]]]; reflexivity.
Defined.
